(** * Pinball workshop: the two pymunk/pygame scripts and their specification

    The repository holds two scripts, [pinball_2_paddles.py] and
    [pinball_template.py].  Both build a pymunk [Space] (boundary segments,
    paddles held by a pin joint and a damped rotary spring), react to pygame
    events and advance the space five times per frame.

    The development embeds the scripts as state-passing programs over a model
    of the pymunk objects they create, and proves the statements of the
    specification about them. *)

From Stdlib Require Import ZArith List Bool Lia String.
From Stdlib Require Import QArith Qcanon.
From Stdlib Require Import Uint63 Floats.
Import ListNotations.

Close Scope Q_scope.
Close Scope Qc_scope.
Close Scope string_scope.
Open Scope nat_scope.

Set Implicit Arguments.

(** ** Python numbers

    The scripts mix integer literals ([750], [13], [10000]) with floats
    ([0.4], [5E10], [math.pi/6], [1/fps]).  An integer is a [Z]; a float is a
    binary64 value, the kernel's [float]. *)

Inductive number : Type :=
| Int (z : Z)
| Float (f : float).

(** Conversion of an integer to binary64; exact below [2^53], which covers
    every literal of the scripts. *)
Definition float_of_Z (z : Z) : float :=
  match z with
  | Z0 => PrimFloat.zero
  | Zpos p => PrimFloat.of_uint63 (Uint63.of_pos p)
  | Zneg p => PrimFloat.opp (PrimFloat.of_uint63 (Uint63.of_pos p))
  end.

Definition to_float (n : number) : float :=
  match n with
  | Int z => float_of_Z z
  | Float f => f
  end.

(** [x / y] of Python 3: true division, always a float.  The divisors of the
    scripts are the nonzero literals [fps], [5], [6] and [4]. *)
Definition truediv (x y : number) : number :=
  Float (PrimFloat.div (to_float x) (to_float y)).

(** Unary minus. *)
Definition neg (x : number) : number :=
  match x with
  | Int z => Int (- z)
  | Float f => Float (PrimFloat.opp f)
  end.

(** [math.pi], the binary64 value nearest to pi. *)
Definition math_pi : number := Float 0x1.921fb54442d18p+1%float.

(** [pymunk.inf]. *)
Definition inf : number := Float PrimFloat.infinity.

Definition Vec2d : Type := (number * number)%type.

Definition vec (x y : Z) : Vec2d := (Int x, Int y).

(** ** The [collision_types] dictionary of both scripts *)

Inductive collision_key : Type := ball | boundary | bumper.

Definition collision_types (k : collision_key) : Z :=
  match k with
  | ball => 0
  | boundary => 1
  | bumper => 2
  end%Z.

(** ** pymunk objects

    Python objects have an identity; an object is modelled as a record that
    carries the identifier it received when it was created.  References
    between objects (a shape's body, a constraint's two bodies, the global
    spring variables) are identifiers. *)

Definition obj_id : Type := nat.

Inductive BodyType : Type := DYNAMIC | KINEMATIC | STATIC.

Record Body : Type := mkBody {
  body_id : obj_id;
  body_type : BodyType;
  mass : number;
  moment : number;
  position : Vec2d;
  velocity : Vec2d;
  angle : number;
  angular_velocity : number
}.

Inductive Geometry : Type :=
| CircleGeom (radius : number) (offset : Vec2d)
| SegmentGeom (a b : Vec2d) (radius : number)
| PolyGeom (vertices : list Vec2d).

Record Shape : Type := mkShape {
  shape_id : obj_id;
  shape_body : obj_id;
  geometry : Geometry;
  elasticity : number;
  friction : number;
  collision_type : Z
}.

Inductive ConstraintKind : Type :=
| PinJointKind (anchor_a anchor_b : Vec2d)
| DampedRotarySpringKind (rest_angle stiffness damping : number).

Record Constraint : Type := mkConstraint {
  constraint_id : obj_id;
  constraint_a : obj_id;
  constraint_b : obj_id;
  constraint_kind : ConstraintKind
}.

(** The functions a script can install as the [begin] callback of a collision
    handler: pymunk's default one, and the closure [remove_ball] that
    [setup_boundaries] defines. *)
Inductive Callback : Type :=
| default_begin
| remove_ball_closure.

Record CollisionHandler : Type := mkHandler {
  handler_types : Z * Z;
  handler_begin : Callback
}.

(** What [space.add] and [space.remove] receive. *)
Inductive Item : Type :=
| BodyItem (b : Body)
| ShapeItem (s : Shape)
| ConstraintItem (c : Constraint).

Inductive ItemRef : Type :=
| BodyRef (i : obj_id)
| ShapeRef (i : obj_id)
| ConstraintRef (i : obj_id).

Record Space : Type := mkSpace {
  gravity : Vec2d;
  static_body : Body;
  bodies : list Body;
  shapes : list Shape;
  constraints : list Constraint;
  handlers : list CollisionHandler;
  locked : bool;
  add_later : list Item;
  remove_later : list ItemRef
}.

(** *** Field updates *)

Definition set_gravity (g : Vec2d) (sp : Space) : Space :=
  mkSpace g (static_body sp) (bodies sp) (shapes sp) (constraints sp)
          (handlers sp) (locked sp) (add_later sp) (remove_later sp).

Definition set_bodies (bs : list Body) (sp : Space) : Space :=
  mkSpace (gravity sp) (static_body sp) bs (shapes sp) (constraints sp)
          (handlers sp) (locked sp) (add_later sp) (remove_later sp).

Definition set_shapes (ss : list Shape) (sp : Space) : Space :=
  mkSpace (gravity sp) (static_body sp) (bodies sp) ss (constraints sp)
          (handlers sp) (locked sp) (add_later sp) (remove_later sp).

Definition set_constraints (cs : list Constraint) (sp : Space) : Space :=
  mkSpace (gravity sp) (static_body sp) (bodies sp) (shapes sp) cs
          (handlers sp) (locked sp) (add_later sp) (remove_later sp).

Definition set_handlers (hs : list CollisionHandler) (sp : Space) : Space :=
  mkSpace (gravity sp) (static_body sp) (bodies sp) (shapes sp)
          (constraints sp) hs (locked sp) (add_later sp) (remove_later sp).

Definition set_locked (l : bool) (sp : Space) : Space :=
  mkSpace (gravity sp) (static_body sp) (bodies sp) (shapes sp)
          (constraints sp) (handlers sp) l (add_later sp) (remove_later sp).

Definition set_add_later (l : list Item) (sp : Space) : Space :=
  mkSpace (gravity sp) (static_body sp) (bodies sp) (shapes sp)
          (constraints sp) (handlers sp) (locked sp) l (remove_later sp).

Definition set_remove_later (l : list ItemRef) (sp : Space) : Space :=
  mkSpace (gravity sp) (static_body sp) (bodies sp) (shapes sp)
          (constraints sp) (handlers sp) (locked sp) (add_later sp) l.

(** *** [space.add] and [space.remove]

    Outside a step both act at once.  Called from a collision callback, that
    is while the space is locked by [space.step], pymunk postpones them to the
    end of the step. *)

Definition add_now (it : Item) (sp : Space) : Space :=
  match it with
  | BodyItem b => set_bodies (bodies sp ++ [b]) sp
  | ShapeItem s => set_shapes (shapes sp ++ [s]) sp
  | ConstraintItem c => set_constraints (constraints sp ++ [c]) sp
  end.

Definition remove_now (r : ItemRef) (sp : Space) : Space :=
  match r with
  | BodyRef i =>
      set_bodies (filter (fun b => negb (Nat.eqb (body_id b) i)) (bodies sp)) sp
  | ShapeRef i =>
      set_shapes (filter (fun s => negb (Nat.eqb (shape_id s) i)) (shapes sp)) sp
  | ConstraintRef i =>
      set_constraints
        (filter (fun c => negb (Nat.eqb (constraint_id c) i)) (constraints sp)) sp
  end.

Definition space_add (items : list Item) (sp : Space) : Space :=
  if locked sp then set_add_later (add_later sp ++ items) sp
  else fold_left (fun s it => add_now it s) items sp.

Definition space_remove (refs : list ItemRef) (sp : Space) : Space :=
  if locked sp then set_remove_later (remove_later sp ++ refs) sp
  else fold_left (fun s r => remove_now r s) refs sp.

(** End of a step: the postponed additions and removals are carried out. *)
Definition flush_later (sp : Space) : Space :=
  let sp1 := fold_left (fun s it => add_now it s) (add_later sp) sp in
  let sp2 := fold_left (fun s r => remove_now r s) (remove_later sp) sp1 in
  set_add_later [] (set_remove_later [] sp2).

(** [space.add_collision_handler(a, b)]: a handler with the default callbacks
    is registered for the pair; [ch.begin = f] replaces its [begin]. *)
Definition add_collision_handler (ta tb : Z) (sp : Space) : Space :=
  set_handlers (handlers sp ++ [mkHandler (ta, tb) default_begin]) sp.

Definition types_eqb (p q : Z * Z) : bool :=
  Z.eqb (fst p) (fst q) && Z.eqb (snd p) (snd q).

Definition set_begin (ta tb : Z) (f : Callback) (sp : Space) : Space :=
  set_handlers
    (map (fun h => if types_eqb (handler_types h) (ta, tb)
                   then mkHandler (handler_types h) f else h)
         (handlers sp)) sp.

(** ** Collision callbacks *)

(** [arbiter.shapes]: the two colliding shapes, in the order of the handler's
    two collision types. *)
Record Arbiter : Type := mkArbiter {
  arbiter_shapes : Shape * Shape
}.

(** The closure of [setup_boundaries] (the same text in both scripts):
<<
    def remove_ball(arbiter, space, data):
        ball_shape = arbiter.shapes[0]
        space.remove(ball_shape, ball_shape.body)
        return False
>> *)
Definition remove_ball (arbiter : Arbiter) (space : Space) : Space * bool :=
  let ball_shape := fst (arbiter_shapes arbiter) in
  (space_remove [ShapeRef (shape_id ball_shape); BodyRef (shape_body ball_shape)]
                space,
   false).

Definition call_begin (f : Callback) (arbiter : Arbiter) (space : Space)
  : Space * bool :=
  match f with
  | default_begin => (space, true)
  | remove_ball_closure => remove_ball arbiter space
  end.

(** ** The stepper, [space.step(dt)]

    pymunk is a dependency of the scripts, not part of the repository.  The
    numerical routines of its stepper are the fields of [Engine]; every
    statement below holds for each of their implementations. *)

Class Engine : Type := {
  (** [pymunk.moment_for_poly(mass, vertices)] *)
  moment_for_poly : number -> list Vec2d -> number;
  (** gravity and integration of one body over [dt] *)
  integrate : float -> Space -> Body -> Body;
  (** pin joints and rotary springs *)
  solve_constraints : float -> Space -> Body -> Body;
  (** the pairs of shapes (by identifier) found overlapping *)
  overlapping : Space -> list (obj_id * obj_id);
  (** the bounce of the pairs whose response was not suppressed *)
  bounce : float -> Space -> list (obj_id * obj_id) -> Body -> Body
}.

(** The engine moves bodies; it does not change which object a body is, its
    type, mass or moment. *)
Definition moved (b b' : Body) : Body :=
  mkBody (body_id b) (body_type b) (mass b) (moment b)
         (position b') (velocity b') (angle b') (angular_velocity b').

Definition move_bodies (f : Body -> Body) (sp : Space) : Space :=
  set_bodies (map (fun b => moved b (f b)) (bodies sp)) sp.

Fixpoint find_shape (i : obj_id) (l : list Shape) : option Shape :=
  match l with
  | [] => None
  | s :: l' => if Nat.eqb (shape_id s) i then Some s else find_shape i l'
  end.

(** The handler registered for an unordered pair of collision types, with
    [true] when the pair is met in the opposite order to the registration. *)
Fixpoint find_handler (t1 t2 : Z) (hs : list CollisionHandler)
  : option (CollisionHandler * bool) :=
  match hs with
  | [] => None
  | h :: hs' =>
      if types_eqb (handler_types h) (t1, t2) then Some (h, false)
      else if types_eqb (handler_types h) (t2, t1) then Some (h, true)
      else find_handler t1 t2 hs'
  end.

(** Modelled from the spec: the collision dispatch of pymunk's stepper (4.3).
    For each overlapping pair the handler of its two collision types, if any,
    is called once with the two shapes; the pair keeps its physical response
    unless the handler answers [False].  The result is the space after the
    callbacks and the pairs that keep their response. *)
Fixpoint dispatch (pairs : list (obj_id * obj_id)) (sp : Space)
  : Space * list (obj_id * obj_id) :=
  match pairs with
  | [] => (sp, [])
  | (i, j) :: rest =>
      match find_shape i (shapes sp), find_shape j (shapes sp) with
      | Some s, Some t =>
          match find_handler (collision_type s) (collision_type t)
                             (handlers sp) with
          | Some (h, swapped) =>
              let arbiter := mkArbiter (if swapped then (t, s) else (s, t)) in
              let '(sp1, respond) := call_begin (handler_begin h) arbiter sp in
              let '(sp2, active) := dispatch rest sp1 in
              (sp2, if respond then (i, j) :: active else active)
          | None =>
              let '(sp2, active) := dispatch rest sp in
              (sp2, (i, j) :: active)
          end
      | _, _ => dispatch rest sp
      end
  end.

(** Modelled from the spec: one substep of pymunk's stepper (4.4): integrate
    the bodies, solve the constraints, detect the overlapping pairs and
    dispatch them to the handlers while the space is locked, bounce the pairs
    that keep their response, then carry out the postponed removals. *)
Definition space_step {E : Engine} (dt : float) (sp : Space) : Space :=
  let sp1 := move_bodies (integrate dt sp) sp in
  let sp2 := move_bodies (solve_constraints dt sp1) sp1 in
  let '(sp3, active) := dispatch (overlapping sp2) (set_locked true sp2) in
  let sp4 := move_bodies (bounce dt sp3 active) sp3 in
  flush_later (set_locked false sp4).

(** The pairs of a substep that keep their physical response. *)
Definition responding {E : Engine} (dt : float) (sp : Space)
  : list (obj_id * obj_id) :=
  let sp1 := move_bodies (integrate dt sp) sp in
  let sp2 := move_bodies (solve_constraints dt sp1) sp1 in
  snd (dispatch (overlapping sp2) (set_locked true sp2)).

(** The space in which a substep looks for overlapping pairs. *)
Definition detection_space {E : Engine} (dt : float) (sp : Space) : Space :=
  let sp1 := move_bodies (integrate dt sp) sp in
  move_bodies (solve_constraints dt sp1) sp1.

(** ** The random generator

    [random.randrange(start, stop)] draws [start + randbelow(stop - start)].
    The generator is a parameter: a state and a draw below a bound. *)

Class Random : Type := {
  randbelow : N -> Z -> Z * N;
  randbelow_range : forall s n, (0 < n)%Z ->
    (0 <= fst (randbelow s n) < n)%Z
}.

(** ** The state of a running script *)

Inductive exception : Type :=
| AttributeError
| ValueError
| ZeroDivisionError
| OverflowError
| pygame_error.

(** The calls a script makes to pymunk and pygame, in the order it makes
    them. *)
Inductive Call : Type :=
| call_add (items : list Item)
| call_set_rest_angle (spring : obj_id) (value : number)
| call_quit
| call_fill
| call_debug_draw (snapshot : list Shape)
| call_step (dt : float)
| call_flip
| call_tick (fps : number).

Record World : Type := mkWorld {
  space : Space;
  l_spring : option obj_id;
  r_spring : option obj_id;
  next_id : obj_id;
  rng : N;
  pygame_alive : bool;
  trace : list Call
}.

Definition with_space (sp : Space) (w : World) : World :=
  mkWorld sp (l_spring w) (r_spring w) (next_id w) (rng w) (pygame_alive w)
          (trace w).

Definition with_trace (t : list Call) (w : World) : World :=
  mkWorld (space w) (l_spring w) (r_spring w) (next_id w) (rng w)
          (pygame_alive w) t.

(** *** State and exceptions *)

Inductive Result (A : Type) : Type :=
| Ok (x : A) (w : World)
| Raised (e : exception) (w : World).

Arguments Raised {A} e w.

Definition M (A : Type) : Type := World -> Result A.

Definition ret {A : Type} (x : A) : M A := fun w => Ok x w.

Definition bind {A B : Type} (c : M A) (k : A -> M B) : M B :=
  fun w => match c w with
           | Ok x w' => k x w'
           | Raised e w' => Raised e w'
           end.

Definition raise {A : Type} (e : exception) : M A := fun w => Raised e w.

Declare Scope py_scope.
Delimit Scope py_scope with py.
Notation "x <- c1 ;; c2" := (bind c1 (fun x => c2))
  (at level 61, c1 at next level, right associativity) : py_scope.
Notation "c1 ;; c2" := (bind c1 (fun _ => c2))
  (at level 61, right associativity) : py_scope.
Open Scope py_scope.

(** The world a computation ends in, raised or not. *)
Definition final {A : Type} (r : Result A) : World :=
  match r with
  | Ok _ w => w
  | Raised _ w => w
  end.

Definition modify_space (f : Space -> Space) : M unit :=
  fun w => Ok tt (with_space (f (space w)) w).

Definition log (c : Call) : M unit :=
  fun w => Ok tt (with_trace (trace w ++ [c]) w).

(** Creation of an object: the next identifier. *)
Definition new_id : M obj_id :=
  fun w => Ok (next_id w)
              (mkWorld (space w) (l_spring w) (r_spring w) (S (next_id w))
                       (rng w) (pygame_alive w) (trace w)).

(** [for x in l: body] *)
Fixpoint for_each {A : Type} (l : list A) (body : A -> M unit) : M unit :=
  match l with
  | [] => ret tt
  | x :: l' => body x ;; for_each l' body
  end.

Definition range (n : nat) : list nat := seq 0 n.

(** *** pymunk constructors, with pymunk's defaults *)

Definition zero : number := Float PrimFloat.zero.

Definition new_Body (m i : number) (t : BodyType) : M Body :=
  id <- new_id ;;
  ret (mkBody id t m i (zero, zero) (zero, zero) zero zero).

(** [body.position = p] *)
Definition with_position (p : Vec2d) (b : Body) : Body :=
  mkBody (body_id b) (body_type b) (mass b) (moment b) p (velocity b)
         (angle b) (angular_velocity b).

Definition new_Shape (body : Body) (g : Geometry) : M Shape :=
  id <- new_id ;;
  ret (mkShape id (body_id body) g zero zero 0%Z).

Definition Segment (body : Body) (a b : Vec2d) (radius : number) : M Shape :=
  new_Shape body (SegmentGeom a b radius).

Definition Circle (radius : number) (body : Body) : M Shape :=
  new_Shape body (CircleGeom radius (zero, zero)).

Definition Poly (vertices : list Vec2d) (body : Body) : M Shape :=
  new_Shape body (PolyGeom vertices).

(** [shape.elasticity = e] and [shape.collision_type = t] *)
Definition with_elasticity (e : number) (s : Shape) : Shape :=
  mkShape (shape_id s) (shape_body s) (geometry s) e (friction s)
          (collision_type s).

Definition with_collision_type (t : Z) (s : Shape) : Shape :=
  mkShape (shape_id s) (shape_body s) (geometry s) (elasticity s) (friction s) t.

Definition PinJoint (a b : Body) : M Constraint :=
  id <- new_id ;;
  ret (mkConstraint id (body_id a) (body_id b)
                    (PinJointKind (zero, zero) (zero, zero))).

Definition DampedRotarySpring (a b : Body) (rest_angle stiffness damping : number)
  : M Constraint :=
  id <- new_id ;;
  ret (mkConstraint id (body_id a) (body_id b)
                    (DampedRotarySpringKind rest_angle stiffness damping)).

(** *** Calls on the space and on pygame *)

(** [space.add(...)] *)
Definition add (items : list Item) : M unit :=
  log (call_add items) ;;
  modify_space (space_add items).

(** [spring.rest_angle = v] on the object a global variable refers to; the
    variable still holds [None] before [setup_paddles] has run. *)
Definition with_rest_angle (v : number) (c : Constraint) : Constraint :=
  match constraint_kind c with
  | DampedRotarySpringKind _ k d =>
      mkConstraint (constraint_id c) (constraint_a c) (constraint_b c)
                   (DampedRotarySpringKind v k d)
  | PinJointKind _ _ => c
  end.

Definition assign_rest_angle (i : obj_id) (v : number) (sp : Space) : Space :=
  set_constraints
    (map (fun c => if Nat.eqb (constraint_id c) i then with_rest_angle v c else c)
         (constraints sp)) sp.

Definition set_rest_angle (spring : option obj_id) (v : number) : M unit :=
  match spring with
  | None => raise AttributeError
  | Some i =>
      log (call_set_rest_angle i v) ;;
      modify_space (assign_rest_angle i v)
  end.

(** [space.step(dt)] *)
Definition step_space {E : Engine} (dt : number) : M unit :=
  log (call_step (to_float dt)) ;;
  modify_space (space_step (to_float dt)).

(** [random.randrange(start, stop)] *)
Definition randrange {R : Random} (start stop : Z) : M Z :=
  fun w =>
    if (stop <=? start)%Z then Raised ValueError w
    else let '(r, s) := randbelow (rng w) (stop - start) in
         Ok (start + r)%Z
            (mkWorld (space w) (l_spring w) (r_spring w) (next_id w) s
                     (pygame_alive w) (trace w)).

(** pygame.  [pygame.quit()] shuts the display down without leaving the loop;
    the next use of the display surface, [screen.fill], then raises
    [pygame.error]. *)
Inductive key : Type := K_ESCAPE | K_SPACE | K_LEFT | K_RIGHT | K_other (code : nat).

Inductive event : Type :=
| QUIT
| KEYDOWN (k : key)
| KEYUP (k : key)
| other_event (code : nat).

Definition set_pygame_alive (alive : bool) : M unit :=
  fun w => Ok tt (mkWorld (space w) (l_spring w) (r_spring w) (next_id w)
                          (rng w) alive (trace w)).

Definition pygame_quit : M unit :=
  log call_quit ;;
  set_pygame_alive false.

Definition screen_fill : M unit :=
  fun w => if pygame_alive w then log call_fill w else Raised pygame_error w.

Definition debug_draw : M unit :=
  fun w => log (call_debug_draw (shapes (space w))) w.

Definition display_flip : M unit := log call_flip.

Definition clock_tick (fps : number) : M unit := log (call_tick fps).

(** The state [main] starts from: [pymunk.Space()] with its static body, no
    paddle yet, pygame initialised. *)
Definition empty_space : Space :=
  mkSpace (zero, zero)
          (mkBody 0 STATIC (Int 0) (Int 0) (zero, zero) (zero, zero) zero zero)
          [] [] [] [] false [] [].

Definition start (seed : N) : World :=
  mkWorld empty_space None None 1 seed true [].

Definition get_static_body : M Body := fun w => Ok (static_body (space w)) w.

(** The global variables [l_spring] and [r_spring]: read, and assigned the
    spring just created. *)
Definition get_l_spring : M (option obj_id) := fun w => Ok (l_spring w) w.

Definition get_r_spring : M (option obj_id) := fun w => Ok (r_spring w) w.

Definition set_l_spring (c : Constraint) : M unit :=
  fun w => Ok tt (mkWorld (space w) (Some (constraint_id c)) (r_spring w)
                          (next_id w) (rng w) (pygame_alive w) (trace w)).

Definition set_r_spring (c : Constraint) : M unit :=
  fun w => Ok tt (mkWorld (space w) (l_spring w) (Some (constraint_id c))
                          (next_id w) (rng w) (pygame_alive w) (trace w)).

(** An object with attributes [x] and [y] that are floats, as the position
    of a pymunk body is. *)
Record Point : Type := mkPoint {
  px : float;
  py : float
}.

(** What a function call without side effect ends in. *)
Inductive Outcome (A : Type) : Type :=
| Returns (v : A)
| Raises (e : exception).

Arguments Raises {A} e.

(** The next operation is evaluated when this one returned. *)
Definition and_then {A B : Type} (o : Outcome A) (k : A -> Outcome B)
  : Outcome B :=
  match o with
  | Returns v => k v
  | Raises e => Raises e
  end.

(** ** Python's operations on floats

    [x - y] and [x + y] are the operations of binary64 and raise nothing.

    [x ** 2]: an infinite [x] gives [inf]; otherwise Python calls C's [pow],
    taken here to round correctly, and raises [OverflowError] when the result
    overflows; a result that underflows is returned, as zero or as a
    subnormal. *)
Definition pow_2 (x : float) : Outcome float :=
  if is_infinity x then Returns infinity
  else let r := (x * x)%float in
       if is_infinity r then Raises OverflowError else Returns r.

(** [x ** (1/2)], [1/2] being the float [0.5], for an [x] that is not
    negative: the square root, taken to round correctly.  The function below
    raises a sum of two squares to this power, which is never negative
    ([base_is_not_negative]). *)
Definition pow_half (x : float) : float := sqrt x.

(** [x / y]: Python raises [ZeroDivisionError] when [y == 0.0], which holds
    of both zeros; a NaN or infinite divisor divides as in binary64. *)
Definition float_div (x y : float) : Outcome float :=
  if (y =? 0)%float then Raises ZeroDivisionError else Returns (x / y)%float.

Local Set Warnings "-inexact-float".

(** * [pinball_2_paddles.py] *)

Module Pinball2Paddles.

(** [unit_vector_between(a, b)], on two objects with float attributes [x]
    and [y], computed in binary64 as Python does: the two squares first, then
    the root of their sum, then the two quotients, the first failure ending
    the call. *)
Definition unit_vector_between (a b : Point) : Outcome (list float) :=
  let vector := ((px a - px b)%float, (py a - py b)%float) in
  and_then (pow_2 (fst vector)) (fun square_x =>
  and_then (pow_2 (snd vector)) (fun square_y =>
  let magnitude := pow_half (square_x + square_y)%float in
  and_then (float_div (fst vector) magnitude) (fun ux =>
  and_then (float_div (snd vector) magnitude) (fun uy =>
  Returns [ux; uy])))).

Section Script.
Context {E : Engine} {R : Random}.

Definition setup_boundaries : M unit :=
  let radius := Int 5 in
  static <- get_static_body ;;
  s1 <- Segment static (vec 50 160) (vec 190 85) radius ;;
  s2 <- Segment static (vec 550 160) (vec 410 85) radius ;;
  s3 <- Segment static (vec 50 160) (vec 50 800) radius ;;
  s4 <- Segment static (vec 550 800) (vec 550 160) radius ;;
  s5 <- Segment static (vec 50 800) (vec 550 800) radius ;;
  let segments := [s1; s2; s3; s4; s5] in
  let segments := map (with_elasticity (Float 0.5)) segments in
  out_of_bounds_segment <- Segment static (vec 0 (-20)) (vec 700 (-20)) (Int 5) ;;
  let out_of_bounds_segment :=
    with_collision_type (collision_types boundary) out_of_bounds_segment in
  modify_space (add_collision_handler (collision_types ball)
                                      (collision_types boundary)) ;;
  modify_space (set_begin (collision_types ball) (collision_types boundary)
                          remove_ball_closure) ;;
  let segments := segments ++ [out_of_bounds_segment] in
  add (map ShapeItem segments).

Definition setup_paddles : M unit :=
  let paddle_mass := Int 10000 in
  let stiffness := Float 5e10 in
  let damping := Float 2e9 in
  let r_rest_angle := truediv (neg math_pi) (Int 6) in
  let r_paddle_vertices := [vec 0 0; vec 80 0; vec 80 20; vec 0 20] in
  let r_paddle_moment_of_inertia := moment_for_poly paddle_mass r_paddle_vertices in
  r_paddle_body <- new_Body paddle_mass r_paddle_moment_of_inertia DYNAMIC ;;
  let r_paddle_body := with_position (vec 200 60) r_paddle_body in
  r_paddle_shape <- Poly r_paddle_vertices r_paddle_body ;;
  r_paddle_joint <- new_Body (Int 0) (Int 0) STATIC ;;
  let r_paddle_joint := with_position (position r_paddle_body) r_paddle_joint in
  j <- PinJoint r_paddle_joint r_paddle_body ;;
  spring <- DampedRotarySpring r_paddle_body r_paddle_joint
                               r_rest_angle stiffness damping ;;
  set_r_spring spring ;;
  add [BodyItem r_paddle_body; ShapeItem r_paddle_shape; BodyItem r_paddle_joint;
       ConstraintItem j; ConstraintItem spring] ;;
  let l_rest_angle := truediv math_pi (Int 6) in
  let l_paddle_vertices := [vec 0 0; vec (-80) 0; vec (-80) 20; vec 0 20] in
  let l_paddle_moment_of_inertia := moment_for_poly paddle_mass l_paddle_vertices in
  l_paddle_body <- new_Body paddle_mass l_paddle_moment_of_inertia DYNAMIC ;;
  let l_paddle_body := with_position (vec 400 60) l_paddle_body in
  l_paddle_shape <- Poly l_paddle_vertices l_paddle_body ;;
  l_paddle_joint <- new_Body (Int 0) (Int 0) STATIC ;;
  let l_paddle_joint := with_position (position l_paddle_body) l_paddle_joint in
  j <- PinJoint l_paddle_joint l_paddle_body ;;
  spring <- DampedRotarySpring l_paddle_body l_paddle_joint
                               l_rest_angle stiffness damping ;;
  set_l_spring spring ;;
  add [BodyItem l_paddle_body; ShapeItem l_paddle_shape; BodyItem l_paddle_joint;
       ConstraintItem j; ConstraintItem spring].

Definition add_ball : M unit :=
  ball_body <- new_Body (Int 1) inf DYNAMIC ;;
  x <- randrange 100 500 ;;
  let ball_body := with_position (Int x, Int 750) ball_body in
  ball_shape <- Circle (Int 13) ball_body ;;
  let ball_shape := with_elasticity (Float 0.4) ball_shape in
  let ball_shape := with_collision_type (collision_types ball) ball_shape in
  add [BodyItem ball_body; ShapeItem ball_shape].

Definition setup : M unit :=
  setup_boundaries ;;
  setup_paddles.

Definition fps : number := Int 60.

(** The body of [for event in pygame.event.get()]. *)
Definition handle_event (ev : event) : M unit :=
  match ev with
  | QUIT => pygame_quit
  | KEYDOWN K_ESCAPE => pygame_quit
  | _ => ret tt
  end ;;
  match ev with
  | KEYDOWN K_SPACE => add_ball
  | _ => ret tt
  end ;;
  match ev with
  | KEYDOWN K_LEFT =>
      spring <- get_r_spring ;;
      set_rest_angle spring (truediv math_pi (Int 4))
  | KEYUP K_LEFT =>
      spring <- get_r_spring ;;
      set_rest_angle spring (truediv (neg math_pi) (Int 6))
  | _ => ret tt
  end ;;
  match ev with
  | KEYDOWN K_RIGHT =>
      spring <- get_l_spring ;;
      set_rest_angle spring (truediv (neg math_pi) (Int 4))
  | KEYUP K_RIGHT =>
      spring <- get_l_spring ;;
      set_rest_angle spring (truediv math_pi (Int 6))
  | _ => ret tt
  end.

(** One iteration of [while True], on the events [pygame.event.get()]
    returned. *)
Definition frame (events : list event) : M unit :=
  for_each events handle_event ;;
  screen_fill ;;
  debug_draw ;;
  let step := truediv (Int 1) fps in
  for_each (range 5) (fun _ => step_space (truediv step (Int 5))) ;;
  display_flip ;;
  clock_tick fps.

(** [main], run on the events of its first iterations. *)
Definition main_loop (input : list (list event)) : M unit :=
  for_each input frame.

Definition main (input : list (list event)) : M unit :=
  modify_space (set_gravity (vec 0 (-900))) ;;
  setup ;;
  main_loop input.

End Script.
End Pinball2Paddles.

(** * [pinball_template.py] *)

Module PinballTemplate.
Section Script.
Context {E : Engine}.

Definition setup_boundaries : M unit :=
  let radius := Int 5 in
  static <- get_static_body ;;
  s1 <- Segment static (vec 50 160) (vec 190 85) radius ;;
  s2 <- Segment static (vec 550 160) (vec 410 85) radius ;;
  s3 <- Segment static (vec 50 160) (vec 50 800) radius ;;
  s4 <- Segment static (vec 550 800) (vec 550 160) radius ;;
  s5 <- Segment static (vec 50 800) (vec 550 800) radius ;;
  let segments := [s1; s2; s3; s4; s5] in
  let segments := map (with_elasticity (Float 0.5)) segments in
  out_of_bounds_segment <- Segment static (vec 0 (-20)) (vec 700 (-20)) (Int 5) ;;
  let out_of_bounds_segment :=
    with_collision_type (collision_types boundary) out_of_bounds_segment in
  modify_space (add_collision_handler (collision_types ball)
                                      (collision_types boundary)) ;;
  modify_space (set_begin (collision_types ball) (collision_types boundary)
                          remove_ball_closure) ;;
  let segments := segments ++ [out_of_bounds_segment] in
  add (map ShapeItem segments).

Definition setup_paddles : M unit :=
  let paddle_mass := Int 10000 in
  let stiffness := Float 5e10 in
  let damping := Float 2e9 in
  let r_rest_angle := truediv math_pi (Int 6) in
  let r_paddle_vertices := [vec 0 0; vec (-80) 0; vec (-80) 20; vec 0 20] in
  let r_paddle_moment_of_inertia := moment_for_poly paddle_mass r_paddle_vertices in
  r_paddle_body <- new_Body paddle_mass r_paddle_moment_of_inertia DYNAMIC ;;
  let r_paddle_body := with_position (vec 400 60) r_paddle_body in
  r_paddle_shape <- Poly r_paddle_vertices r_paddle_body ;;
  r_paddle_joint <- new_Body (Int 0) (Int 0) STATIC ;;
  let r_paddle_joint := with_position (position r_paddle_body) r_paddle_joint in
  r_pinjoint <- PinJoint r_paddle_joint r_paddle_body ;;
  spring <- DampedRotarySpring r_paddle_body r_paddle_joint
                               r_rest_angle stiffness damping ;;
  set_r_spring spring ;;
  add [BodyItem r_paddle_body; ShapeItem r_paddle_shape; BodyItem r_paddle_joint;
       ConstraintItem r_pinjoint; ConstraintItem spring].

Definition setup : M unit :=
  setup_boundaries ;;
  setup_paddles.

Definition fps : number := Int 60.

Definition handle_event (ev : event) : M unit :=
  match ev with
  | QUIT => pygame_quit
  | KEYDOWN K_ESCAPE => pygame_quit
  | _ => ret tt
  end ;;
  match ev with
  | KEYDOWN K_RIGHT =>
      spring <- get_r_spring ;;
      set_rest_angle spring (truediv (neg math_pi) (Int 4))
  | KEYUP K_RIGHT =>
      spring <- get_r_spring ;;
      set_rest_angle spring (truediv math_pi (Int 6))
  | _ => ret tt
  end.

Definition frame (events : list event) : M unit :=
  for_each events handle_event ;;
  screen_fill ;;
  debug_draw ;;
  let step := truediv (Int 1) fps in
  for_each (range 5) (fun _ => step_space (truediv step (Int 5))) ;;
  display_flip ;;
  clock_tick fps.

Definition main_loop (input : list (list event)) : M unit :=
  for_each input frame.

Definition main (input : list (list event)) : M unit :=
  modify_space (set_gravity (vec 0 (-900))) ;;
  setup ;;
  main_loop input.

End Script.
End PinballTemplate.

(** * The integrator and the constructors of the specification

    pymunk integrates the bodies and validates nothing the scripts can see;
    its code is not in the repository.  The two modules below follow the
    specification's text for these parts, over exact rationals. *)

Fixpoint iterate {A : Type} (n : nat) (f : A -> A) (x : A) : A :=
  match n with
  | O => x
  | S n' => iterate n' f (f x)
  end.

Module Integrator.

Definition qc (z : Z) : Qc := Q2Qc (inject_Z z).

Record State : Type := mkState {
  pos : Qc * Qc;
  vel : Qc * Qc
}.

(** Modelled from the spec: the integration of a free body of finite mass
    over one substep (4.4), pymunk's integrator being absent from the
    repository.  Gravity is a linear acceleration; the velocity is updated
    from it first, then the position from the new velocity (semi-implicit
    Euler). *)
Definition substep (g : Qc * Qc) (dt : Qc) (s : State) : State :=
  let v := (fst (vel s) + fst g * dt, snd (vel s) + snd g * dt)%Qc in
  mkState (fst (pos s) + fst v * dt, snd (pos s) + snd v * dt)%Qc v.

(** Modelled from the spec: [step(totalFrameTime)] divides the frame time in
    five equal substeps (4.4). *)
Definition frame_step (g : Qc * Qc) (frame_time : Qc) (s : State) : State :=
  iterate 5 (substep g (frame_time / qc 5)%Qc) s.

Definition simulate (g : Qc * Qc) (frame_time : Qc) (frames : nat) (s : State)
  : State :=
  iterate frames (frame_step g frame_time) s.

(** The values of the scripts: [space.gravity = (0, -900)], [fps = 60], and a
    ball at rest on the spawn line [y = 750] of [add_ball]. *)
Definition gravity : Qc * Qc := (qc 0, qc (-900)).

Definition frame_time : Qc := (qc 1 / qc 60)%Qc.

Definition spawned (x : Z) : State :=
  mkState (qc x, qc 750) (qc 0, qc 0).

End Integrator.

Module Degeneracy.

(** The rational a number stands for; infinities and NaN stand for none. *)
Definition float_to_Q (f : float) : option Q :=
  match Prim2SF f with
  | SpecFloat.S754_zero _ => Some (inject_Z 0)
  | SpecFloat.S754_finite s m e =>
      let v := if (0 <=? e)%Z then inject_Z (Zpos m * 2 ^ e)
               else Qmake (Zpos m) (Z.to_pos (2 ^ (- e))) in
      Some (if s then Qopp v else v)
  | _ => None
  end.

Definition exact (n : number) : option Q :=
  match n with
  | Int z => Some (inject_Z z)
  | Float f => float_to_Q f
  end.

Definition exact_vec (v : Vec2d) : option (Q * Q) :=
  match exact (fst v), exact (snd v) with
  | Some x, Some y => Some (x, y)
  | _, _ => None
  end.

Fixpoint exact_vecs (l : list Vec2d) : option (list (Q * Q)) :=
  match l with
  | [] => Some []
  | v :: l' =>
      match exact_vec v, exact_vecs l' with
      | Some p, Some ps => Some (p :: ps)
      | _, _ => None
      end
  end.

(** Twice the signed area of the triangle [o a b]: positive when [b] lies to
    the left of the line from [o] to [a]. *)
Definition cross (o a b : Q * Q) : Q :=
  ((fst a - fst o) * (snd b - snd o) - (snd a - snd o) * (fst b - fst o))%Q.

(** The edges of a closed polygon: each vertex with its successor, the last
    with the first. *)
Definition edges (vs : list (Q * Q)) : list ((Q * Q) * (Q * Q)) :=
  combine vs (tl vs ++ firstn 1 vs).

Definition all_left (vs : list (Q * Q)) : bool :=
  forallb (fun e => forallb (fun v => Qle_bool 0 (cross (fst e) (snd e) v)) vs)
          (edges vs).

Definition all_right (vs : list (Q * Q)) : bool :=
  forallb (fun e => forallb (fun v => Qle_bool (cross (fst e) (snd e) v) 0) vs)
          (edges vs).

Definition has_area (vs : list (Q * Q)) : bool :=
  existsb (fun e => existsb (fun v => negb (Qeq_bool (cross (fst e) (snd e) v) 0))
                            vs)
          (edges vs).

(** A polygon is convex when it has at least three vertices, is not flat,
    and all its vertices lie on one side of each of its edges.  A reflex
    vertex or two crossing edges put a vertex on the wrong side of an edge. *)
Definition convexb (vs : list (Q * Q)) : bool :=
  (3 <=? List.length vs) && has_area vs && (all_left vs || all_right vs).

Definition same_point (p q : Q * Q) : bool :=
  Qeq_bool (fst p) (fst q) && Qeq_bool (snd p) (snd q).

(** What can be wrong with a geometry. *)
Inductive defect : Type :=
| not_finite
| zero_radius_circle
| zero_length_segment
| not_convex_polygon.

(** The defect of a geometry, if it has one, decided on the exact values of
    its numbers. *)
Definition defect_of (g : Geometry) : option defect :=
  match g with
  | CircleGeom r _ =>
      match exact r with
      | None => Some not_finite
      | Some q => if Qeq_bool q 0 then Some zero_radius_circle else None
      end
  | SegmentGeom a b _ =>
      match exact_vec a, exact_vec b with
      | Some p, Some q => if same_point p q then Some zero_length_segment else None
      | _, _ => Some not_finite
      end
  | PolyGeom vs =>
      match exact_vecs vs with
      | None => Some not_finite
      | Some ps => if convexb ps then None else Some not_convex_polygon
      end
  end.

(** The specification's words. *)
Definition convex (vs : list (Q * Q)) : Prop :=
  3 <= List.length vs /\
  (exists e v, In e (edges vs) /\ In v vs /\ ~ (cross (fst e) (snd e) v == 0)%Q) /\
  ((forall e v, In e (edges vs) -> In v vs -> (0 <= cross (fst e) (snd e) v)%Q) \/
   (forall e v, In e (edges vs) -> In v vs -> (cross (fst e) (snd e) v <= 0)%Q)).

(** Degenerate geometry, as the specification lists it. *)
Inductive degenerate : Geometry -> defect -> Prop :=
| zero_radius r o q :
    exact r = Some q -> (q == 0)%Q ->
    degenerate (CircleGeom r o) zero_radius_circle
| zero_length a b r p q :
    exact_vec a = Some p -> exact_vec b = Some q ->
    (fst p == fst q)%Q -> (snd p == snd q)%Q ->
    degenerate (SegmentGeom a b r) zero_length_segment
| not_convex vs ps :
    exact_vecs vs = Some ps -> ~ convex ps ->
    degenerate (PolyGeom vs) not_convex_polygon.

End Degeneracy.

(** * One scene setup, parameterised

    The specification describes the two scripts as one scene setup
    parameterised by a list of paddle configurations.  [Scene] writes that
    setup down, to be compared with the [setup] of each script. *)

Fixpoint map_m {A B : Type} (f : A -> M B) (l : list A) : M (list B) :=
  match l with
  | [] => ret []
  | x :: l' =>
      y <- f x ;;
      ys <- map_m f l' ;;
      ret (y :: ys)
  end.

Module Scene.

Record PaddleConfig : Type := mkPaddle {
  paddle_vertices : list Vec2d;
  paddle_mass : number;
  paddle_pivot : Vec2d;
  paddle_rest_angle : number;
  paddle_stiffness : number;
  paddle_damping : number
}.

Record BoundaryConfig : Type := mkBoundary {
  walls : list (Vec2d * Vec2d);
  wall_radius : number;
  wall_elasticity : number;
  out_of_bounds : Vec2d * Vec2d;
  out_of_bounds_radius : number
}.

Section Setup.
Context {E : Engine}.

(** The static boundary: the wall segments, the out-of-bounds segment tagged
    "boundary", and the (ball, boundary) handler. *)
Definition setup_boundaries (c : BoundaryConfig) : M unit :=
  static <- get_static_body ;;
  segments <- map_m (fun ab => Segment static (fst ab) (snd ab) (wall_radius c))
                    (walls c) ;;
  let segments := map (with_elasticity (wall_elasticity c)) segments in
  oob <- Segment static (fst (out_of_bounds c)) (snd (out_of_bounds c))
                 (out_of_bounds_radius c) ;;
  let oob := with_collision_type (collision_types boundary) oob in
  modify_space (add_collision_handler (collision_types ball)
                                      (collision_types boundary)) ;;
  modify_space (set_begin (collision_types ball) (collision_types boundary)
                          remove_ball_closure) ;;
  add (map ShapeItem (segments ++ [oob])).

(** One paddle actuator: a dynamic body with the moment of its polygon, an
    immovable anchor body at the pivot, a pin joint and a damped rotary
    spring.  The result is the spring. *)
Definition setup_paddle (c : PaddleConfig) : M Constraint :=
  let inertia := moment_for_poly (paddle_mass c) (paddle_vertices c) in
  body <- new_Body (paddle_mass c) inertia DYNAMIC ;;
  let body := with_position (paddle_pivot c) body in
  shape <- Poly (paddle_vertices c) body ;;
  anchor <- new_Body (Int 0) (Int 0) STATIC ;;
  let anchor := with_position (position body) anchor in
  pin <- PinJoint anchor body ;;
  spring <- DampedRotarySpring body anchor (paddle_rest_angle c)
                               (paddle_stiffness c) (paddle_damping c) ;;
  add [BodyItem body; ShapeItem shape; BodyItem anchor;
       ConstraintItem pin; ConstraintItem spring] ;;
  ret spring.

Definition setup (b : BoundaryConfig) (paddles : list PaddleConfig)
  : M (list Constraint) :=
  setup_boundaries b ;;
  map_m setup_paddle paddles.

End Setup.

(** The configuration both scripts share, and their paddles. *)
Definition playfield : BoundaryConfig :=
  mkBoundary [(vec 50 160, vec 190 85); (vec 550 160, vec 410 85);
              (vec 50 160, vec 50 800); (vec 550 800, vec 550 160);
              (vec 50 800, vec 550 800)]
             (Int 5) (Float 0.5)
             (vec 0 (-20), vec 700 (-20)) (Int 5).

Definition paddle_at_400 : PaddleConfig :=
  mkPaddle [vec 0 0; vec (-80) 0; vec (-80) 20; vec 0 20]
           (Int 10000) (vec 400 60) (truediv math_pi (Int 6))
           (Float 5e10) (Float 2e9).

Definition paddle_at_200 : PaddleConfig :=
  mkPaddle [vec 0 0; vec 80 0; vec 80 20; vec 0 20]
           (Int 10000) (vec 200 60) (truediv (neg math_pi) (Int 6))
           (Float 5e10) (Float 2e9).

(** The globals each script binds to the springs of its paddles. *)
Definition bind_template (springs : list Constraint) : M unit :=
  match springs with
  | [s] => set_r_spring s
  | _ => ret tt
  end.

Definition bind_two_paddles (springs : list Constraint) : M unit :=
  match springs with
  | [r; l] => set_r_spring r ;; set_l_spring l
  | _ => ret tt
  end.

End Scene.

(** ** What a space holds, read back *)

Fixpoint find_body (i : obj_id) (l : list Body) : option Body :=
  match l with
  | [] => None
  | b :: l' => if Nat.eqb (body_id b) i then Some b else find_body i l'
  end.

Fixpoint find_constraint (i : obj_id) (l : list Constraint) : option Constraint :=
  match l with
  | [] => None
  | c :: l' => if Nat.eqb (constraint_id c) i then Some c else find_constraint i l'
  end.

(** A paddle actuator as the space holds it, without the identity of its
    objects. *)
Record Actuator : Type := mkActuator {
  act_vertices : list Vec2d;
  act_mass : number;
  act_moment : number;
  act_pivot : Vec2d;
  act_anchor_type : BodyType;
  act_anchor_position : Vec2d;
  act_pinned : bool;
  act_rest_angle : number;
  act_stiffness : number;
  act_damping : number
}.

Definition is_pin_between (anchor body : obj_id) (c : Constraint) : bool :=
  match constraint_kind c with
  | PinJointKind _ _ =>
      Nat.eqb (constraint_a c) anchor && Nat.eqb (constraint_b c) body
  | DampedRotarySpringKind _ _ _ => false
  end.

(** The actuator a global spring variable stands for. *)
Definition actuator_of (sp : Space) (spring : option obj_id) : option Actuator :=
  match spring with
  | None => None
  | Some i =>
      match find_constraint i (constraints sp) with
      | Some c =>
          match constraint_kind c,
                find_body (constraint_a c) (bodies sp),
                find_body (constraint_b c) (bodies sp),
                find (fun s => Nat.eqb (shape_body s) (constraint_a c)) (shapes sp)
          with
          | DampedRotarySpringKind rest k d, Some body, Some anchor, Some shape =>
              match geometry shape with
              | PolyGeom vs =>
                  Some (mkActuator vs (mass body) (moment body) (position body)
                                   (body_type anchor) (position anchor)
                                   (existsb (is_pin_between (body_id anchor)
                                                            (body_id body))
                                            (constraints sp))
                                   rest k d)
              | _ => None
              end
          | _, _, _, _ => None
          end
      | None => None
      end
  end.

(** A constraint without its rest angle: what no command may change. *)
Definition without_rest_angle (c : Constraint) : Constraint :=
  with_rest_angle (Int 0) c.

(** The segments among the shapes of a space. *)
Definition is_segment (s : Shape) : bool :=
  match geometry s with
  | SegmentGeom _ _ _ => true
  | _ => false
  end.

Definition segment_geometries (sp : Space) : list Geometry :=
  map geometry (filter is_segment (shapes sp)).

(** ** The main loop, one call after the other *)

Inductive Op : Type :=
| op_event (e : event)
| op_fill
| op_draw
| op_step (dt : number)
| op_flip
| op_tick (fps : number).

Definition perform {E : Engine} (handle : event -> M unit) (o : Op) : M unit :=
  match o with
  | op_event e => handle e
  | op_fill => screen_fill
  | op_draw => debug_draw
  | op_step dt => step_space dt
  | op_flip => display_flip
  | op_tick fps => clock_tick fps
  end.

(** The substep of both scripts: [step / 5] with [step = 1/fps]. *)
Definition substep_dt : number := truediv (truediv (Int 1) (Int 60)) (Int 5).

(** What both scripts do in a frame once the events are handled. *)
Definition render_and_step {E : Engine} : M unit :=
  screen_fill ;;
  debug_draw ;;
  for_each (range 5) (fun _ => step_space substep_dt) ;;
  display_flip ;;
  clock_tick (Int 60).

Definition frame_ops (events : list event) : list Op :=
  map op_event events ++ [op_fill; op_draw] ++ repeat (op_step substep_dt) 5
      ++ [op_flip; op_tick (Int 60)].

Definition is_command (c : Call) : bool :=
  match c with
  | call_add _ | call_set_rest_angle _ _ | call_quit => true
  | _ => false
  end.

Definition is_step (c : Call) : bool :=
  match c with
  | call_step _ => true
  | _ => false
  end.

Definition snapshots (t : list Call) : list (list Shape) :=
  flat_map (fun c => match c with call_debug_draw s => [s] | _ => [] end) t.

(** The part of the trace a computation added. *)
Definition added {A : Type} (w : World) (r : Result A) : list Call :=
  skipn (List.length (trace w)) (trace (final r)).

(** ** The state between two calls of a running script *)

Definition ball_handler : CollisionHandler :=
  mkHandler (collision_types ball, collision_types boundary) remove_ball_closure.

Record settled (w : World) : Prop := mkSettled {
  settled_unlocked : locked (space w) = false;
  settled_add_later : add_later (space w) = [];
  settled_remove_later : remove_later (space w) = [];
  settled_handlers : handlers (space w) = [ball_handler];
  settled_ids : forall s, In s (shapes (space w)) -> shape_id s < next_id w
}.

Record quiet (sp : Space) : Prop := mkQuiet {
  quiet_unlocked : locked sp = false;
  quiet_add_later : add_later sp = [];
  quiet_remove_later : remove_later sp = []
}.

(** A property of the world that a computation keeps, whether it returns or
    raises. *)
Definition preserves {A : Type} (P : World -> Prop) (c : M A) : Prop :=
  forall w, P w -> P (final (c w)).

(** The trace grew from [t0] by commands only. *)
Definition commands_since (t0 : list Call) (w : World) : Prop :=
  exists cmds, trace w = t0 ++ cmds /\ forallb is_command cmds = true.

Definition has_shape (i : obj_id) (sp : Space) : Prop :=
  In i (map shape_id (shapes sp)).

Definition has_body (i : obj_id) (sp : Space) : Prop :=
  In i (map body_id (bodies sp)).

(** * A small engine and generator to run the scripts with

    An [Engine] and a [Random] on which the scripts can be evaluated: bodies
    in free fall, pinned bodies held at their anchor, circles tested against
    segments, no bounce; and a linear congruential generator. *)

Module Reference.

Local Open Scope float_scope.

Definition fx (v : Vec2d) : float := to_float (fst v).
Definition fy (v : Vec2d) : float := to_float (snd v).

Definition cyclic (vs : list Vec2d) : list (Vec2d * Vec2d) :=
  combine vs (tl vs ++ firstn 1 vs).

(** The moment of a polygon about the origin of its body, area weighted. *)
Definition poly_moment (m : number) (vs : list Vec2d) : number :=
  let sums :=
    fold_left
      (fun acc e =>
         let v1 := fst e in
         let v2 := snd e in
         let a := fx v2 * fy v1 - fy v2 * fx v1 in
         let b := (fx v1 * fx v1 + fy v1 * fy v1)
                  + (fx v1 * fx v2 + fy v1 * fy v2)
                  + (fx v2 * fx v2 + fy v2 * fy v2) in
         (fst acc + a * b, snd acc + a))
      (cyclic vs) (0, 0) in
  Float (to_float m * fst sums / (6 * snd sums)).

Definition free_fall (dt : float) (sp : Space) (b : Body) : Body :=
  match body_type b with
  | DYNAMIC =>
      let vx := fx (velocity b) + fx (gravity sp) * dt in
      let vy := fy (velocity b) + fy (gravity sp) * dt in
      mkBody (body_id b) (body_type b) (mass b) (moment b)
             (Float (fx (position b) + vx * dt), Float (fy (position b) + vy * dt))
             (Float vx, Float vy) (angle b) (angular_velocity b)
  | _ => b
  end.

Definition pin_of (b : Body) (c : Constraint) : bool :=
  match constraint_kind c with
  | PinJointKind _ _ => Nat.eqb (constraint_b c) (body_id b)
  | DampedRotarySpringKind _ _ _ => false
  end.

Definition hold (dt : float) (sp : Space) (b : Body) : Body :=
  match find (pin_of b) (constraints sp) with
  | Some c =>
      match find_body (constraint_a c) (bodies sp) with
      | Some anchor =>
          mkBody (body_id b) (body_type b) (mass b) (moment b)
                 (position anchor) (zero, zero) (angle b) (angular_velocity b)
      | None => b
      end
  | None => b
  end.

Definition clamp01 (t : float) : float :=
  if t <? 0 then 0 else if 1 <? t then 1 else t.

(** A circle against a segment of the static body: the squared distance from
    the centre to the nearest point of the segment, against the squared sum of
    the two radii. *)
Definition touching (sp : Space) (s t : Shape) : bool :=
  match geometry s, geometry t, find_body (shape_body s) (bodies sp) with
  | CircleGeom rc _, SegmentGeom a b rs, Some body =>
      let cx := fx (position body) in
      let cy := fy (position body) in
      let abx := fx b - fx a in
      let aby := fy b - fy a in
      let u := clamp01 (((cx - fx a) * abx + (cy - fy a) * aby)
                        / (abx * abx + aby * aby)) in
      let dx := cx - (fx a + u * abx) in
      let dy := cy - (fy a + u * aby) in
      let r := to_float rc + to_float rs in
      dx * dx + dy * dy <? r * r
  | _, _, _ => false
  end.

Definition touching_pairs (sp : Space) : list (obj_id * obj_id) :=
  flat_map (fun s =>
              flat_map (fun t => if touching sp s t
                                 then [(shape_id s, shape_id t)] else [])
                       (shapes sp))
           (shapes sp).

Definition engine : Engine :=
  Build_Engine poly_moment free_fall hold touching_pairs (fun _ _ _ b => b).

Definition lcg_next (s : N) : N := ((s * 1103515245 + 12345) mod 2147483648)%N.

Definition lcg_below (s : N) (n : Z) : Z * N :=
  ((Z.of_N (lcg_next s) / 65536) mod n, lcg_next s)%Z.

End Reference.

(** ** What a substep's dispatch decides, pair by pair

    While the space is locked, a callback cannot change the shapes or the
    handlers, so what each overlapping pair asks for can be read off the
    space the dispatch starts from. *)

Definition pair_verdict (sp : Space) (p : obj_id * obj_id)
  : option (list ItemRef * bool) :=
  match find_shape (fst p) (shapes sp), find_shape (snd p) (shapes sp) with
  | Some s, Some t =>
      match find_handler (collision_type s) (collision_type t) (handlers sp) with
      | Some (h, swapped) =>
          match handler_begin h with
          | default_begin => Some ([], true)
          | remove_ball_closure =>
              let ball_shape := if swapped then t else s in
              Some ([ShapeRef (shape_id ball_shape);
                     BodyRef (shape_body ball_shape)], false)
          end
      | None => Some ([], true)
      end
  | _, _ => None
  end.

Definition removals_of (sp : Space) (p : obj_id * obj_id) : list ItemRef :=
  match pair_verdict sp p with
  | Some (refs, _) => refs
  | None => []
  end.

Definition responds (sp : Space) (p : obj_id * obj_id) : bool :=
  match pair_verdict sp p with
  | Some (_, respond) => respond
  | None => false
  end.

Definition removes_shape (refs : list ItemRef) (i : obj_id) : bool :=
  existsb (fun r => match r with ShapeRef j => Nat.eqb i j | _ => false end) refs.

Definition removes_body (refs : list ItemRef) (i : obj_id) : bool :=
  existsb (fun r => match r with BodyRef j => Nat.eqb i j | _ => false end) refs.

Definition removes_constraint (refs : list ItemRef) (i : obj_id) : bool :=
  existsb (fun r => match r with ConstraintRef j => Nat.eqb i j | _ => false end)
          refs.

(** The removals a substep of [dt] carries out at its end. *)
Definition substep_removals {E : Engine} (dt : float) (sp : Space)
  : list ItemRef :=
  flat_map (removals_of (detection_space dt sp))
           (overlapping (detection_space dt sp)).

(** The constraints of a quiet space, up to the rest angles. *)
Definition keeps (skeleton : list Constraint) (w : World) : Prop :=
  quiet (space w) /\
  map without_rest_angle (constraints (space w)) = skeleton.

(** The two global spring variables hold [l] and [r]. *)
Definition globals_are (l r : option obj_id) (w : World) : Prop :=
  l_spring w = l /\ r_spring w = r.

(** The shape [i] was created, is no longer in the space, and no drawing
    since the trace [t0] showed it. *)
Definition gone (i : obj_id) (t0 : list Call) (w : World) : Prop :=
  quiet (space w) /\
  i < next_id w /\
  ~ has_shape i (space w) /\
  exists new, trace w = t0 ++ new /\
              forall snap, In snap (snapshots new) -> ~ In i (map shape_id snap).

(** ** Definitions the statements below are written with *)

(** The world after drawing and stepping. *)
Definition stepped {E : Engine} (w : World) : World :=
  mkWorld (iterate 5 (space_step (to_float substep_dt)) (space w))
          (l_spring w) (r_spring w) (next_id w) (rng w) (pygame_alive w)
          (trace w ++ [call_fill; call_debug_draw (shapes (space w))]
                 ++ repeat (call_step (to_float substep_dt)) 5
                 ++ [call_flip; call_tick (Int 60)]).

(** What a frame adds to the trace after the commands of its event loop. *)
Definition frame_tail {E : Engine} (w1 : World) : list Call :=
  [call_fill; call_debug_draw (shapes (space w1))]
    ++ repeat (call_step (to_float substep_dt)) 5
    ++ [call_flip; call_tick (Int 60)].

(** The number of substeps as a rational. *)
Fixpoint count (n : nat) : Qc :=
  match n with
  | O => Integrator.qc 0
  | S n' => (count n' + Integrator.qc 1)%Qc
  end.

(** The linear congruential generator as a [Random]. *)
Definition lcg : Random :=
  Build_Random Reference.lcg_below
               (fun s n H => Z.mod_pos_bound (Z.of_N (Reference.lcg_next s) / 65536) n H).

(** A run of the two-paddle script on the small engine: a ball is spawned in
    the first frame; 76 frames without events later, two substeps into the
    next frame, the ball is about to reach the out-of-bounds segment. *)
Definition falling_ball_world : World :=
  final (for_each ([op_fill; op_draw; op_step substep_dt; op_step substep_dt])
                  (@perform Reference.engine
                            (@Pinball2Paddles.handle_event lcg))
                  (final (@Pinball2Paddles.main Reference.engine lcg
                            ([KEYDOWN K_SPACE] :: repeat [] 76) (start 42)))).

Definition no_shape : Shape :=
  mkShape 0 0 (PolyGeom []) zero zero 0%Z.

Definition falling_ball : Shape :=
  last (shapes (space falling_ball_world)) no_shape.

Definition out_of_bounds_shape : Shape :=
  nth 5 (shapes (space falling_ball_world)) no_shape.

(** ** Reading the floats of [unit_vector_between] *)




(** What [unit_vector_between] computes as [magnitude], when it gets there. *)
Definition magnitude (a b : Point) : Outcome float :=
  and_then (pow_2 (px a - px b)%float) (fun square_x =>
  and_then (pow_2 (py a - py b)%float) (fun square_y =>
  Returns (pow_half (square_x + square_y)%float))).

(** ** Further definitions: events, balls, and what a run keeps *)

(** The events on which [main] calls [pygame.quit()]. *)
Definition quits (e : event) : bool :=
  match e with
  | QUIT | KEYDOWN K_ESCAPE => true
  | _ => false
  end.

(** The events on which the two-paddle script calls [add_ball]. *)
Definition spawns (e : event) : bool :=
  match e with
  | KEYDOWN K_SPACE => true
  | _ => false
  end.

(** [x == y] of Python, or both are NaN. *)
Definition same_float (x y : float) : bool :=
  (x =? y)%float || (is_nan x && is_nan y).

(** A shape and a body as [add_ball] makes them.  The shape is created right
    after its body. *)
Definition is_ball_shape (s : Shape) : Prop :=
  geometry s = CircleGeom (Int 13) (zero, zero) /\
  elasticity s = Float 0.4 /\
  friction s = zero /\
  collision_type s = collision_types ball /\
  shape_id s = S (shape_body s).

Definition is_ball_body (b : Body) : Prop :=
  body_type b = DYNAMIC /\ mass b = Int 1 /\ moment b = inf.

(** What the event loop of a frame leaves, in a world [w] whose two spring
    variables are bound: the world [w'] it returns, with the balls it
    spawned. *)
Record event_loop_result (events : list event) (w w' : World)
       (new_bodies : list Body) (new_shapes : list Shape) : Prop :=
  mkEventLoopResult {
  loop_bodies : bodies (space w') = bodies (space w) ++ new_bodies;
  loop_shapes : shapes (space w') = shapes (space w) ++ new_shapes;
  loop_count_bodies : List.length new_bodies = List.length (filter spawns events);
  loop_count_shapes : List.length new_shapes = List.length (filter spawns events);
  loop_ball_bodies : Forall is_ball_body new_bodies;
  loop_ball_shapes : Forall is_ball_shape new_shapes;
  loop_attached : map shape_body new_shapes = map body_id new_bodies;
  loop_next_id :
    next_id w' = next_id w + 2 * List.length (filter spawns events);
  loop_alive :
    pygame_alive w' = pygame_alive w && forallb (fun e => negb (quits e)) events;
  loop_l_spring : l_spring w' = l_spring w;
  loop_r_spring : r_spring w' = r_spring w;
  loop_quiet : quiet (space w')
}.

(** No event of the frames asks to quit. *)
Definition quit_free (input : list (list event)) : bool :=
  forallb (forallb (fun e => negb (quits e))) input.

(** How a run on [input] from [w] ended in [r], for a handler of events:
    normally, pygame alive, when no event asked to quit; else by
    [pygame.error], pygame shut down, in the first frame [f] with such an
    event, once all events of [f] were handled. *)
Definition run_ended (handle : event -> M unit) (run : list (list event) -> M unit)
           (input : list (list event)) (w : World) (r : Result unit) : Prop :=
  match r with
  | Ok _ w' => quit_free input = true /\ pygame_alive w' = true
  | Raised e w' =>
      e = pygame_error /\
      pygame_alive w' = false /\
      exists pre f post w0,
        input = pre ++ f :: post /\
        quit_free pre = true /\ existsb quits f = true /\
        run pre w = Ok tt w0 /\
        for_each f handle w0 = Ok tt w'
  end.

(** The four constraints of the two-paddle script and the two of the
    template, for given rest angles of the springs. *)
Definition pin_joint (i anchor body : obj_id) : Constraint :=
  mkConstraint i anchor body (PinJointKind (zero, zero) (zero, zero)).

Definition rotary_spring (i body anchor : obj_id) (rest : number) : Constraint :=
  mkConstraint i body anchor
               (DampedRotarySpringKind rest (Float 5e10) (Float 2e9)).

Definition two_paddle_constraints (r_rest l_rest : number) : list Constraint :=
  [pin_joint 10 9 7; rotary_spring 11 7 9 r_rest;
   pin_joint 15 14 12; rotary_spring 16 12 14 l_rest].

Definition template_constraints (r_rest : number) : list Constraint :=
  [pin_joint 10 9 7; rotary_spring 11 7 9 r_rest].

(** What a script keeps of a space through a run, for the shapes [scene]
    that setup built, the shapes [spawned] that the script adds later and the
    next identifier [n]: the space is not stepping; the (ball, boundary)
    handler, the gravity and the static body are those of the start; the
    shapes are distinct objects, each a shape of setup or a spawned one, each
    on the static body or on a body of the space that carries no other shape;
    the shapes of setup tagged "boundary" are all there. *)
Record tidy (scene : list Shape) (spawned : Shape -> Prop) (sp : Space)
       (n : obj_id) : Prop := mkTidy {
  tidy_quiet : quiet sp;
  tidy_handlers : handlers sp = [ball_handler];
  tidy_gravity : gravity sp = vec 0 (-900);
  tidy_static : static_body sp = static_body empty_space;
  tidy_distinct : NoDup (map shape_id (shapes sp));
  tidy_shape_ids :
    forall s, In s (shapes sp) -> shape_id s < n /\ shape_body s < n;
  tidy_body_ids : forall i, In i (map body_id (bodies sp)) -> i < n;
  tidy_inventory : forall s, In s (shapes sp) -> In s scene \/ spawned s;
  tidy_boundary :
    forall s, In s scene -> collision_type s = collision_types boundary ->
              In s (shapes sp);
  tidy_one_shape_per_body :
    forall s1 s2, In s1 (shapes sp) -> In s2 (shapes sp) ->
                  shape_body s1 = shape_body s2 ->
                  s1 = s2 \/ shape_body s1 = body_id (static_body sp);
  tidy_attached :
    forall s, In s (shapes sp) ->
              shape_body s = body_id (static_body sp) \/
              In (shape_body s) (map body_id (bodies sp))
}.

Definition orderly (scene : list Shape) (spawned : Shape -> Prop) (w : World)
  : Prop :=
  tidy scene spawned (space w) (next_id w).

(** The segment below the playfield, as [setup_boundaries] adds it: the sixth
    shape made, on the static body, tagged "boundary". *)
Definition out_of_bounds_segment : Shape :=
  mkShape 6 (body_id (static_body empty_space))
          (SegmentGeom (vec 0 (-20)) (vec 700 (-20)) (Int 5)) zero zero
          (collision_types boundary).

(** Whether a substep of [dt] from [sp] keeps the shape [s], or removes it as
    a shape of type "ball" found overlapping a shape of type "boundary". *)
Definition kept_or_drained {E : Engine} (dt : float) (sp : Space) (s : Shape)
  : Prop :=
  In s (shapes (space_step dt sp)) \/
  (collision_type s = collision_types ball /\
   ~ In (shape_body s) (map body_id (bodies (space_step dt sp))) /\
   exists t, In t (shapes sp) /\
             collision_type t = collision_types boundary /\
             (In (shape_id s, shape_id t) (overlapping (detection_space dt sp)) \/
              In (shape_id t, shape_id s) (overlapping (detection_space dt sp)))).

(** A shape is on the static body of the space or on one of its bodies. *)
Definition attached (sp : Space) (s : Shape) : Prop :=
  shape_body s = body_id (static_body sp) \/
  In (shape_body s) (map body_id (bodies sp)).


(** * Proofs *)

Unset Implicit Arguments.

Arguments space_step : simpl never.

(** ** The state-and-exception computations *)

Lemma for_each_app {A : Type} (l1 l2 : list A) (f : A -> M unit) (w : World) :
  for_each (l1 ++ l2) f w = (for_each l1 f ;; for_each l2 f) w.
Proof.
  revert w. induction l1 as [|x l1 IH]; intros w.
  - reflexivity.
  - cbn [for_each app]. unfold bind.
    destruct (f x w) as [[] w1|e w1]; [|reflexivity].
    rewrite IH. reflexivity.
Qed.

Lemma for_each_map {A B : Type} (g : A -> B) (l : list A) (f : B -> M unit)
      (w : World) :
  for_each (map g l) f w = for_each l (fun x => f (g x)) w.
Proof.
  revert w. induction l as [|x l IH]; intros w; [reflexivity|].
  cbn [for_each map]. unfold bind.
  destruct (f (g x) w); [apply IH|reflexivity].
Qed.

Lemma preserves_ret {A : Type} (P : World -> Prop) (x : A) : preserves P (ret x).
Proof. intros w H. exact H. Qed.

Lemma preserves_raise {A : Type} (P : World -> Prop) (e : exception) :
  preserves P (@raise A e).
Proof. intros w H. exact H. Qed.

Lemma preserves_bind {A B : Type} (P : World -> Prop) (c : M A) (k : A -> M B) :
  preserves P c -> (forall x, preserves P (k x)) -> preserves P (bind c k).
Proof.
  intros Hc Hk w H. unfold bind. specialize (Hc w H).
  destruct (c w) as [x w1|e w1]; cbn [final] in *.
  - apply Hk. exact Hc.
  - exact Hc.
Qed.

Lemma preserves_for_each {A : Type} (P : World -> Prop) (l : list A)
      (f : A -> M unit) :
  (forall x, preserves P (f x)) -> preserves P (for_each l f).
Proof.
  intros Hf. induction l as [|x l IH]; cbn [for_each].
  - apply preserves_ret.
  - apply preserves_bind; [apply Hf|intros _; exact IH].
Qed.

Lemma preserves_map_m {A B : Type} (P : World -> Prop) (l : list A)
      (f : A -> M B) :
  (forall x, preserves P (f x)) -> preserves P (map_m f l).
Proof.
  intros Hf. induction l as [|x l IH]; cbn [map_m].
  - apply preserves_ret.
  - apply preserves_bind; [apply Hf|intros y].
    apply preserves_bind; [exact IH|intros ys]. apply preserves_ret.
Qed.

(** A computation that leaves the world as it is. *)
Lemma preserves_reader {A : Type} (P : World -> Prop) (c : M A) :
  (forall w, final (c w) = w) -> preserves P c.
Proof. intros H w Hw. rewrite H. exact Hw. Qed.

Ltac pres_step :=
  first
    [ progress (cbv beta iota)
    | apply preserves_ret
    | apply preserves_raise
    | apply preserves_bind; [|intros ?]
    | apply preserves_for_each; intros ?
    | apply preserves_map_m; intros ?
    | match goal with
      | |- preserves _ (match ?x with _ => _ end) => destruct x
      end ].

Ltac pres := repeat pres_step.

(** Decomposition that tries the lemmas of [leaf] before it opens a
    computation. *)
Ltac pres_with leaf := repeat first [ solve [leaf] | pres_step ].

(** ** The shape of a frame *)

Lemma frame_two_paddles {E : Engine} {R : Random} (events : list event) (w : World) :
  Pinball2Paddles.frame events w
  = (for_each events Pinball2Paddles.handle_event ;; render_and_step) w.
Proof. reflexivity. Qed.

Lemma frame_template {E : Engine} (events : list event) (w : World) :
  PinballTemplate.frame events w
  = (for_each events PinballTemplate.handle_event ;; render_and_step) w.
Proof. reflexivity. Qed.

Lemma render_and_step_alive {E : Engine} (w : World) :
  pygame_alive w = true -> render_and_step w = Ok tt (stepped w).
Proof.
  intros H. destruct w as [sp l r n g a t]. cbn in H. subst a.
  unfold render_and_step, stepped, bind, screen_fill, debug_draw, display_flip,
    clock_tick, step_space, log, modify_space, range, with_trace, with_space.
  cbn [seq for_each bind ret trace space l_spring r_spring next_id rng
       pygame_alive iterate repeat].
  unfold bind, ret.
  cbn [trace space l_spring r_spring next_id rng pygame_alive].
  repeat rewrite <- app_assoc. reflexivity.
Qed.

Lemma render_and_step_dead {E : Engine} (w : World) :
  pygame_alive w = false -> render_and_step w = Raised pygame_error w.
Proof.
  intros H. unfold render_and_step, bind, screen_fill. rewrite H. reflexivity.
Qed.

(** ** The calls of the event loop are commands *)

Lemma commands_since_same (t0 : list Call) (w w' : World) :
  trace w' = trace w -> commands_since t0 w -> commands_since t0 w'.
Proof. intros Ht [cmds [H1 H2]]. exists cmds. rewrite Ht. auto. Qed.

Lemma commands_since_log (t0 : list Call) (c : Call) :
  is_command c = true -> preserves (commands_since t0) (log c).
Proof.
  intros Hc w [cmds [H1 H2]]. exists (cmds ++ [c]). cbn. split.
  - rewrite H1. rewrite app_assoc. reflexivity.
  - rewrite forallb_app, H2. cbn. rewrite Hc. reflexivity.
Qed.

Ltac same_trace :=
  let w := fresh "w" in
  let H := fresh "H" in
  intros w H; apply (commands_since_same _ w); [|exact H];
  try reflexivity.

Lemma commands_since_randrange {R : Random} (t0 : list Call) (a b : Z) :
  preserves (commands_since t0) (randrange a b).
Proof.
  same_trace. unfold randrange. destruct (b <=? a)%Z; [reflexivity|].
  destruct (randbelow (rng w) (b - a)). reflexivity.
Qed.

Lemma commands_since_set_rest_angle (t0 : list Call) (g : option obj_id)
      (v : number) :
  preserves (commands_since t0) (set_rest_angle g v).
Proof.
  destruct g as [i|]; cbn [set_rest_angle]; pres.
  - apply commands_since_log. reflexivity.
  - same_trace.
Qed.

Ltac commands_leaf :=
  first [ match goal with
          | |- preserves _ (randrange _ _) => apply commands_since_randrange
          | |- preserves _ (set_rest_angle _ _) =>
              apply commands_since_set_rest_angle
          | |- preserves _ (log _) => apply commands_since_log; reflexivity
          end
        | same_trace ].

Lemma commands_since_quit (t0 : list Call) :
  preserves (commands_since t0) pygame_quit.
Proof.
  unfold pygame_quit. pres_with commands_leaf.
Qed.

Lemma commands_since_add (t0 : list Call) (items : list Item) :
  preserves (commands_since t0) (add items).
Proof.
  unfold add. pres_with commands_leaf.
Qed.

Lemma commands_since_add_ball {R : Random} (t0 : list Call) :
  preserves (commands_since t0) Pinball2Paddles.add_ball.
Proof.
  unfold Pinball2Paddles.add_ball.
  pres_with ltac:(first [apply commands_since_add | commands_leaf]).
Qed.

Lemma commands_since_event_two {R : Random} (t0 : list Call) (e : event) :
  preserves (commands_since t0) (Pinball2Paddles.handle_event e).
Proof.
  unfold Pinball2Paddles.handle_event.
  pres_with ltac:(first [ apply commands_since_quit
                        | apply commands_since_add_ball
                        | commands_leaf ]).
Qed.

Lemma commands_since_event_template (t0 : list Call) (e : event) :
  preserves (commands_since t0) (PinballTemplate.handle_event e).
Proof.
  unfold PinballTemplate.handle_event.
  pres_with ltac:(first [apply commands_since_quit | commands_leaf]).
Qed.

Lemma commands_since_start (w : World) : commands_since (trace w) w.
Proof. exists []. rewrite app_nil_r. auto. Qed.

(** What a frame adds to the trace, for any handler of events whose calls are
    commands: the commands of the event loop; then, unless the loop raised or
    pygame was shut down, the drawing, five steps and the end of frame. *)
Lemma frame_trace {E : Engine} (handle : event -> M unit) (events : list event)
      (w : World) :
  (forall t0 e, preserves (commands_since t0) (handle e)) ->
  exists cmds rest,
    trace (final (for_each events handle w)) = trace w ++ cmds /\
    trace (final ((for_each events handle ;; render_and_step) w))
    = trace w ++ cmds ++ rest /\
    forallb is_command cmds = true /\
    (rest = [] \/ rest = frame_tail (final (for_each events handle w))).
Proof.
  intros Hh.
  destruct (preserves_for_each (commands_since (trace w)) events handle
              (Hh (trace w)) w (commands_since_start w)) as [cmds [H1 H2]].
  exists cmds. unfold bind.
  destruct (for_each events handle w) as [[] w1|e w1]; cbn [final] in *.
  - destruct (pygame_alive w1) eqn:Ha.
    + exists (frame_tail w1). rewrite (render_and_step_alive w1 Ha).
      cbn [final stepped trace]. rewrite H1. rewrite <- app_assoc.
      repeat split; auto.
    + exists []. rewrite (render_and_step_dead w1 Ha). cbn [final].
      rewrite app_nil_r. repeat split; auto.
  - exists []. rewrite app_nil_r. repeat split; auto.
Qed.


Lemma substep_dt_value :
  to_float substep_dt = PrimFloat.div (PrimFloat.div 1 60) 5.
Proof. reflexivity. Qed.

Lemma frame_tail_no_command {E : Engine} (w : World) :
  forallb (fun c => negb (is_command c)) (frame_tail w) = true.
Proof. reflexivity. Qed.

Lemma commands_are_not_steps (l : list Call) :
  forallb is_command l = true -> forallb (fun c => negb (is_step c)) l = true.
Proof.
  induction l as [|c l IH]; cbn; [reflexivity|].
  intros H. apply andb_prop in H. destruct H as [Hc Hl].
  rewrite (IH Hl), andb_true_r. destruct c; cbn in *; congruence.
Qed.

(** ** [add_ball], computed *)

Lemma add_ball_computed {R : Random} (w : World) :
  let x := (100 + fst (randbelow (rng w) (500 - 100)))%Z in
  let body :=
    mkBody (next_id w) DYNAMIC (Int 1) inf (Int x, Int 750) (zero, zero)
           zero zero in
  let shape :=
    mkShape (S (next_id w)) (next_id w) (CircleGeom (Int 13) (zero, zero))
            (Float 0.4) zero (collision_types ball) in
  Pinball2Paddles.add_ball w
  = Ok tt (mkWorld (space_add [BodyItem body; ShapeItem shape] (space w))
                   (l_spring w) (r_spring w) (S (S (next_id w)))
                   (snd (randbelow (rng w) (500 - 100))) (pygame_alive w)
                   (trace w ++ [call_add [BodyItem body; ShapeItem shape]])).
Proof.
  unfold Pinball2Paddles.add_ball, new_Body, Circle, new_Shape, add, randrange,
    bind, new_id, ret, log, modify_space, with_trace, with_space.
  cbn [next_id space l_spring r_spring rng pygame_alive trace].
  change (500 <=? 100)%Z with false. cbv iota.
  destruct (randbelow (rng w) (500 - 100)) as [r s].
  reflexivity.
Qed.

Lemma randrange_drawn {R : Random} (s : N) :
  (100 <= 100 + fst (randbelow s (500 - 100)) < 500)%Z.
Proof.
  pose proof (@randbelow_range _ s (500 - 100)%Z eq_refl) as H. lia.
Qed.

Lemma space_add_unlocked (items : list Item) (sp : Space) :
  locked sp = false ->
  space_add items sp = fold_left (fun s it => add_now it s) items sp.
Proof. intros H. unfold space_add. rewrite H. reflexivity. Qed.

(** ** Free fall under the integrator of the specification *)

Lemma iterate_succ {A : Type} (n : nat) (f : A -> A) (x : A) :
  iterate (S n) f x = f (iterate n f x).
Proof.
  revert x. induction n as [|n IH]; intros x; [reflexivity|].
  change (iterate (S (S n)) f x) with (iterate (S n) f (f x)).
  rewrite IH. reflexivity.
Qed.

Lemma iterate_add {A : Type} (n m : nat) (f : A -> A) (x : A) :
  iterate (n + m) f x = iterate m f (iterate n f x).
Proof.
  revert x. induction n as [|n IH]; intros x; [reflexivity|].
  cbn [Nat.add iterate]. apply IH.
Qed.

Lemma iterate_mul {A : Type} (n m : nat) (f : A -> A) (x : A) :
  iterate n (iterate m f) x = iterate (n * m) f x.
Proof.
  revert x. induction n as [|n IH]; intros x; [reflexivity|].
  cbn [Nat.mul iterate]. rewrite iterate_add, IH. reflexivity.
Qed.

Lemma qc_0 : Integrator.qc 0 = 0%Qc.
Proof. apply Qc_is_canon. reflexivity. Qed.

Lemma qc_1 : Integrator.qc 1 = 1%Qc.
Proof. apply Qc_is_canon. reflexivity. Qed.

(** After [n] substeps from rest-or-not: velocity [v + n g dt], position
    [p + n v dt + g dt^2 n (n+1) / 2]. *)
Lemma substeps_closed_form (g : Qc * Qc) (dt : Qc) (n : nat) (s : Integrator.State) :
  let k := count n in
  let two := (1 + 1)%Qc in
  iterate n (Integrator.substep g dt) s
  = Integrator.mkState
      (fst (Integrator.pos s) + k * fst (Integrator.vel s) * dt
         + fst g * dt * dt * (k * (k + 1)) / two,
       snd (Integrator.pos s) + k * snd (Integrator.vel s) * dt
         + snd g * dt * dt * (k * (k + 1)) / two)%Qc
      (fst (Integrator.vel s) + k * fst g * dt,
       snd (Integrator.vel s) + k * snd g * dt)%Qc.
Proof.
  revert s. induction n as [|n IH]; intros s; cbv zeta.
  - cbn [iterate count]. rewrite qc_0. destruct s as [[x y] [vx vy]].
    cbn [Integrator.pos Integrator.vel fst snd].
    f_equal; f_equal; field; discriminate.
  - cbn [iterate count]. rewrite IH. cbv zeta. rewrite qc_1.
    destruct s as [[x y] [vx vy]].
    cbn [Integrator.substep Integrator.pos Integrator.vel fst snd].
    f_equal; f_equal; field; discriminate.
Qed.

Lemma simulate_is_substeps (g : Qc * Qc) (ft : Qc) (frames : nat)
      (s : Integrator.State) :
  Integrator.simulate g ft frames s
  = iterate (frames * 5) (Integrator.substep g (ft / Integrator.qc 5)%Qc) s.
Proof. unfold Integrator.simulate, Integrator.frame_step. apply iterate_mul. Qed.

(** ** Binary64: what rounding does to signs *)

Lemma round_aux_opp (s : bool) (m e : Z) (l : SpecFloat.location) :
  SpecFloat.binary_round_aux prec emax (negb s) m e l
  = SpecFloat.SFopp (SpecFloat.binary_round_aux prec emax s m e l).
Proof.
  unfold SpecFloat.binary_round_aux.
  destruct (SpecFloat.shr_fexp prec emax m e l) as [mrs' e'].
  destruct (SpecFloat.shr_fexp prec emax _ e' SpecFloat.loc_Exact)
    as [mrs'' e''].
  destruct (SpecFloat.shr_m mrs''); [reflexivity| |reflexivity].
  destruct (e'' <=? emax - prec)%Z; reflexivity.
Qed.

Lemma round_opp (s : bool) (m : positive) (e : Z) :
  SpecFloat.binary_round prec emax (negb s) m e
  = SpecFloat.SFopp (SpecFloat.binary_round prec emax s m e).
Proof.
  unfold SpecFloat.binary_round.
  destruct (SpecFloat.shl_align m e _) as [mz ez]. apply round_aux_opp.
Qed.

Lemma SFopp_involutive (x : SpecFloat.spec_float) :
  SpecFloat.SFopp (SpecFloat.SFopp x) = x.
Proof.
  destruct x as [s|s| |s m e]; cbn; rewrite ?negb_involutive; reflexivity.
Qed.

Lemma normalize_opp (z e : Z) :
  SpecFloat.binary_normalize prec emax (- z) e false
  = SpecFloat.SFopp (SpecFloat.binary_normalize prec emax z e false) \/
  z = 0%Z.
Proof.
  destruct z as [|p|p]; [right; reflexivity|left|left];
    cbn [Z.opp SpecFloat.binary_normalize].
  - apply (round_opp false).
  - change true with (negb false). rewrite (round_opp false).
    symmetry. apply SFopp_involutive.
Qed.



(** ** Binary64: subtraction, and the operations on an opposite *)

Lemma SFsub_swap (x y : SpecFloat.spec_float) :
  SF64sub y x = SpecFloat.SFopp (SF64sub x y) \/
  (SF64sub x y = SpecFloat.S754_zero false /\
   SF64sub y x = SpecFloat.S754_zero false).
Proof.
  unfold SF64sub.
  destruct x as [sx|sx| |sx mx ex], y as [sy|sy| |sy my ey];
    try (left; reflexivity);
    try (destruct sx, sy; cbn; tauto);
    try (destruct sx; cbn; tauto);
    try (destruct sy; cbn; tauto).
  cbn [SpecFloat.SFsub].
  rewrite (Z.min_comm ey ex).
  set (ez := Z.min ex ey).
  set (X := SpecFloat.cond_Zopp sx (Z.pos (fst (SpecFloat.shl_align mx ex ez)))).
  set (Y := SpecFloat.cond_Zopp sy (Z.pos (fst (SpecFloat.shl_align my ey ez)))).
  replace (Y - X)%Z with (- (X - Y))%Z by lia.
  destruct (normalize_opp (X - Y)%Z ez) as [H|H]; [left; exact H|].
  right. rewrite H. split; reflexivity.
Qed.

(** Swapping the operands of a subtraction negates the result, a zero result
    apart: [x - y] and [y - x] are then both [+0]. *)
Lemma sub_swap (x y : float) :
  (y - x = - (x - y))%float \/ ((x - y = 0)%float /\ (y - x = 0)%float).
Proof.
  destruct (SFsub_swap (Prim2SF x) (Prim2SF y)) as [H|[H1 H2]].
  - left. apply Prim2SF_inj. rewrite opp_spec, !sub_spec. exact H.
  - right. split; apply Prim2SF_inj; rewrite sub_spec; [exact H1|exact H2].
Qed.



Lemma abs_opp (x : float) : abs (- x) = abs x.
Proof.
  apply Prim2SF_inj. rewrite !abs_spec, opp_spec.
  destruct (Prim2SF x); reflexivity.
Qed.

Lemma is_infinity_opp (x : float) : is_infinity (- x) = is_infinity x.
Proof. unfold is_infinity. rewrite abs_opp. reflexivity. Qed.

Lemma mul_opp_opp (x : float) : (- x * - x = x * x)%float.
Proof.
  apply Prim2SF_inj. rewrite !mul_spec, opp_spec. unfold SF64mul.
  destruct (Prim2SF x) as [s|s| |s m e]; cbn [SpecFloat.SFopp SpecFloat.SFmul];
    try reflexivity; destruct s; reflexivity.
Qed.

Lemma div_opp (x m : float) : (- x / m = - (x / m))%float.
Proof.
  apply Prim2SF_inj. rewrite opp_spec, !div_spec, opp_spec. unfold SF64div.
  destruct (Prim2SF x) as [s|s| |s mx ex], (Prim2SF m) as [sm|sm| |sm mm em];
    cbn [SpecFloat.SFopp SpecFloat.SFdiv]; try reflexivity;
    try (destruct s, sm; reflexivity).
  destruct (SpecFloat.SFdiv_core_binary prec emax (Z.pos mx) ex (Z.pos mm) em)
    as [[mz ez] lz].
  rewrite <- round_aux_opp. destruct s, sm; reflexivity.
Qed.

(** ** Binary64: the signs in [unit_vector_between] *)







(** ** Binary64: [unit_vector_between] on swapped points *)

Lemma pow_2_opp (x : float) : pow_2 (- x) = pow_2 x.
Proof. unfold pow_2. rewrite is_infinity_opp, mul_opp_opp. reflexivity. Qed.

Lemma pow_2_swap (x y : float) : pow_2 (y - x) = pow_2 (x - y).
Proof.
  destruct (sub_swap x y) as [H|[H1 H2]].
  - rewrite H. apply pow_2_opp.
  - rewrite H1, H2. reflexivity.
Qed.

Lemma same_float_refl (x : float) : same_float x x = true.
Proof. unfold same_float, is_nan. destruct (x =? x)%float; reflexivity. Qed.

Lemma zero_quotient (m : float) : same_float (0 / m) (- (0 / m)) = true.
Proof.
  unfold same_float, is_nan. rewrite !eqb_spec, !opp_spec, div_spec.
  unfold SF64div. change (Prim2SF 0) with (SpecFloat.S754_zero false).
  destruct (Prim2SF m) as [sm|sm| |sm mm em]; reflexivity.
Qed.

Lemma swapped_quotient (x y m : float) :
  same_float ((y - x) / m) (- ((x - y) / m)) = true.
Proof.
  destruct (sub_swap x y) as [H|[H1 H2]].
  - rewrite H, div_opp. apply same_float_refl.
  - rewrite H1, H2. apply zero_quotient.
Qed.

(** ** Removal, immediate and postponed *)

Lemma filter_filter {A : Type} (f g : A -> bool) (l : list A) :
  filter f (filter g l) = filter (fun x => g x && f x) l.
Proof.
  induction l as [|x l IH]; [reflexivity|]. cbn.
  destruct (g x); cbn; [destruct (f x)|]; rewrite IH; reflexivity.
Qed.

Lemma remove_all_fields (refs : list ItemRef) (sp : Space) :
  let sp' := fold_left (fun s r => remove_now r s) refs sp in
  gravity sp' = gravity sp /\ static_body sp' = static_body sp /\
  handlers sp' = handlers sp /\ locked sp' = locked sp /\
  add_later sp' = add_later sp /\ remove_later sp' = remove_later sp /\
  bodies sp' = filter (fun b => negb (removes_body refs (body_id b))) (bodies sp) /\
  shapes sp' = filter (fun s => negb (removes_shape refs (shape_id s))) (shapes sp) /\
  constraints sp'
  = filter (fun c => negb (removes_constraint refs (constraint_id c)))
           (constraints sp).
Proof.
  revert sp. induction refs as [|r refs IH]; intros sp; cbn [fold_left].
  - cbn. repeat split; symmetry; apply forallb_filter_id;
      apply forallb_forall; reflexivity.
  - destruct (IH (remove_now r sp))
      as [H1 [H2 [H3 [H4 [H5 [H6 [H7 [H8 H9]]]]]]]].
    cbv zeta. rewrite H1, H2, H3, H4, H5, H6, H7, H8, H9.
    destruct r as [i|i|i]; cbn [remove_now];
      cbn [gravity static_body handlers locked add_later remove_later bodies
           shapes constraints set_bodies set_shapes set_constraints];
      repeat split; try rewrite filter_filter; try apply filter_ext; intros x;
      cbn; try rewrite negb_orb; reflexivity.
Qed.

Lemma set_remove_later_twice (l1 l2 : list ItemRef) (sp : Space) :
  set_remove_later l2 (set_remove_later l1 sp) = set_remove_later l2 sp.
Proof. reflexivity. Qed.

(** The dispatch of a locked space: the removals the pairs ask for are
    postponed, the pairs that keep their response are returned, nothing else
    changes. *)
Lemma dispatch_locked (pairs : list (obj_id * obj_id)) (sp : Space) :
  locked sp = true ->
  dispatch pairs sp
  = (set_remove_later (remove_later sp ++ flat_map (removals_of sp) pairs) sp,
     filter (responds sp) pairs).
Proof.
  revert sp. induction pairs as [|[i j] rest IH]; intros sp Hl.
  - cbn. rewrite app_nil_r. destruct sp; reflexivity.
  - cbn [dispatch flat_map filter].
    unfold removals_of at 1, responds at 1, pair_verdict. cbn [fst snd].
    destruct (find_shape i (shapes sp)) as [s|];
      [destruct (find_shape j (shapes sp)) as [t|]|];
      try (rewrite (IH sp Hl); reflexivity).
    destruct (find_handler (collision_type s) (collision_type t) (handlers sp))
      as [[h swapped]|]; [|rewrite (IH sp Hl); reflexivity].
    unfold call_begin. destruct (handler_begin h).
    + rewrite (IH sp Hl). reflexivity.
    + unfold remove_ball, space_remove. rewrite Hl.
      rewrite IH by exact Hl.
      cbn [remove_later set_remove_later arbiter_shapes].
      rewrite <- app_assoc.
      destruct swapped; reflexivity.
Qed.

Lemma removals_are_balls (sp : Space) (pairs : list (obj_id * obj_id)) (i : obj_id) :
  removes_constraint (flat_map (removals_of sp) pairs) i = false.
Proof.
  induction pairs as [|p rest IH]; [reflexivity|].
  cbn [flat_map]. unfold removes_constraint in *. rewrite existsb_app, IH.
  rewrite orb_false_r. unfold removals_of, pair_verdict.
  destruct (find_shape (fst p) (shapes sp)); [|reflexivity].
  destruct (find_shape (snd p) (shapes sp)); [|reflexivity].
  destruct (find_handler _ _ _) as [[h swapped]|]; [|reflexivity].
  destruct (handler_begin h); reflexivity.
Qed.

Lemma body_ids_moved (f : Body -> Body) (l : list Body) :
  map body_id (map (fun b => moved b (f b)) l) = map body_id l.
Proof. rewrite map_map. apply map_ext. reflexivity. Qed.

Lemma in_ids_filter (f : obj_id -> bool) (l : list Body) (i : obj_id) :
  In i (map body_id (filter (fun b => f (body_id b)) l)) <->
  In i (map body_id l) /\ f i = true.
Proof.
  rewrite !in_map_iff. split.
  - intros [b [Hb Hin]]. apply filter_In in Hin. destruct Hin as [Hin Hf].
    subst i. split; [exists b; auto|exact Hf].
  - intros [[b [Hb Hin]] Hf]. exists b. split; [exact Hb|].
    apply filter_In. subst i. auto.
Qed.

(** A substep of a quiet space: the space is quiet again; it lost the shapes
    and bodies whose removal a callback asked for, and nothing else of what
    the scripts set up changed. *)
Lemma space_step_quiet {E : Engine} (dt : float) (sp : Space) :
  quiet sp ->
  let refs := substep_removals dt sp in
  let sp' := space_step dt sp in
  quiet sp' /\
  gravity sp' = gravity sp /\ static_body sp' = static_body sp /\
  handlers sp' = handlers sp /\
  constraints sp' = constraints sp /\
  shapes sp' = filter (fun s => negb (removes_shape refs (shape_id s))) (shapes sp) /\
  (forall i, In i (map body_id (bodies sp')) <->
             In i (map body_id (bodies sp)) /\ removes_body refs i = false).
Proof.
  intros [Hl Ha Hr] refs sp'. unfold sp', space_step.
  fold (detection_space dt sp). set (sp2 := detection_space dt sp).
  rewrite dispatch_locked by reflexivity.
  assert (Hrefs : remove_later (set_locked true sp2)
                  ++ flat_map (removals_of (set_locked true sp2)) (overlapping sp2)
                  = refs).
  { cbn [remove_later set_locked]. unfold sp2 at 1, detection_space, move_bodies.
    cbn [remove_later set_bodies]. rewrite Hr. reflexivity. }
  rewrite Hrefs. cbv iota beta.
  unfold flush_later.
  cbn [add_later set_locked move_bodies set_bodies set_remove_later remove_later].
  assert (Hadd : add_later sp2 = []) by exact Ha. rewrite Hadd.
  cbn [fold_left set_add_later].
  match goal with
  | |- context [fold_left (fun s r => remove_now r s) refs ?x] =>
      destruct (remove_all_fields refs x)
        as [H1 [H2 [H3 [H4 [H5 [H6 [H7 [H8 H9]]]]]]]];
        set (sp5 := fold_left (fun s r => remove_now r s) refs x) in *
  end.
  cbv zeta in *.
  cbn [gravity static_body handlers constraints shapes bodies locked add_later
       remove_later set_add_later set_remove_later].
  split; [constructor;
            cbn [locked add_later remove_later set_add_later set_remove_later];
            [rewrite H4|..]; reflexivity|].
  rewrite H1, H2, H3, H8, H9.
  cbn [gravity static_body handlers constraints shapes bodies].
  split; [reflexivity|]. split; [reflexivity|]. split; [reflexivity|].
  split.
  { apply forallb_filter_id. apply forallb_forall. intros c _.
    unfold refs, substep_removals. rewrite removals_are_balls. reflexivity. }
  split; [reflexivity|].
  intros i. rewrite H7.
  rewrite (in_ids_filter (fun j => negb (removes_body refs j))).
  unfold sp2, detection_space, move_bodies.
  cbn [bodies set_bodies set_locked set_remove_later].
  rewrite !body_ids_moved. rewrite negb_true_iff. reflexivity.
Qed.

(** ** What the commands leave of the constraints *)

Lemma bind_assoc {A B C : Type} (c : M A) (k : A -> M B) (h : B -> M C)
      (w : World) :
  bind (bind c k) h w = bind c (fun x => bind (k x) h) w.
Proof. unfold bind. destruct (c w); reflexivity. Qed.

Lemma bind_ok {A B : Type} (c : M A) (k : A -> M B) (w w' : World) (x : A) :
  c w = Ok x w' -> bind c k w = k x w'.
Proof. intros H. unfold bind. rewrite H. reflexivity. Qed.

Lemma without_with_rest_angle (v : number) (c : Constraint) :
  without_rest_angle (with_rest_angle v c) = without_rest_angle c.
Proof.
  unfold without_rest_angle, with_rest_angle.
  destruct c as [i a b [p q|r k d]]; reflexivity.
Qed.

Lemma skeleton_assign (i : obj_id) (v : number) (sp : Space) :
  map without_rest_angle (constraints (assign_rest_angle i v sp))
  = map without_rest_angle (constraints sp).
Proof.
  unfold assign_rest_angle. cbn [constraints set_constraints].
  rewrite map_map. apply map_ext. intros c.
  destruct (Nat.eqb (constraint_id c) i); [apply without_with_rest_angle|reflexivity].
Qed.

(** Two constraints equal up to the rest angle: the same object on the same
    two bodies; a pin joint with the same anchors, or a spring with the same
    stiffness and damping. *)
Lemma same_but_rest_angle (c c' : Constraint) :
  without_rest_angle c = without_rest_angle c' ->
  constraint_id c = constraint_id c' /\
  constraint_a c = constraint_a c' /\
  constraint_b c = constraint_b c' /\
  match constraint_kind c, constraint_kind c' with
  | PinJointKind p q, PinJointKind p' q' => p = p' /\ q = q'
  | DampedRotarySpringKind _ k d, DampedRotarySpringKind _ k' d' =>
      k = k' /\ d = d'
  | _, _ => False
  end.
Proof.
  unfold without_rest_angle, with_rest_angle.
  destruct c as [i a b [p q|r k d]], c' as [i' a' b' [p' q'|r' k' d']];
    cbn; intros H; inversion H; subst; auto.
Qed.

Lemma keeps_same_space (sk : list Constraint) (w w' : World) :
  space w' = space w -> keeps sk w -> keeps sk w'.
Proof. intros H [H1 H2]. split; rewrite H; assumption. Qed.

Ltac same_space lem :=
  let w := fresh "w" in
  let H := fresh "H" in
  intros w H; apply (lem _ w); [|exact H];
  try reflexivity.

Lemma same_space_randrange {R : Random} (a b : Z) (w : World) :
  space (final (randrange a b w)) = space w.
Proof.
  unfold randrange. destruct (b <=? a)%Z; [reflexivity|].
  destruct (randbelow (rng w) (b - a)). reflexivity.
Qed.

Lemma same_space_fill (w : World) : space (final (screen_fill w)) = space w.
Proof. unfold screen_fill. destruct (pygame_alive w); reflexivity. Qed.

Lemma add_ball_items_quiet (b : Body) (s : Shape) (sp : Space) :
  quiet sp ->
  quiet (space_add [BodyItem b; ShapeItem s] sp) /\
  constraints (space_add [BodyItem b; ShapeItem s] sp) = constraints sp /\
  handlers (space_add [BodyItem b; ShapeItem s] sp) = handlers sp /\
  shapes (space_add [BodyItem b; ShapeItem s] sp) = shapes sp ++ [s] /\
  bodies (space_add [BodyItem b; ShapeItem s] sp) = bodies sp ++ [b].
Proof.
  intros [Hl Ha Hr]. rewrite (space_add_unlocked _ _ Hl). cbn.
  repeat split; assumption.
Qed.

Lemma keeps_add_ball_items (sk : list Constraint) (b : Body) (s : Shape) :
  preserves (keeps sk) (modify_space (space_add [BodyItem b; ShapeItem s])).
Proof.
  intros w [Hq Hs]. unfold keeps. cbn [final modify_space with_space space].
  destruct (add_ball_items_quiet b s (space w) Hq) as [H1 [H2 _]].
  split; [exact H1|]. rewrite H2. exact Hs.
Qed.

Lemma keeps_assign (sk : list Constraint) (i : obj_id) (v : number) :
  preserves (keeps sk) (modify_space (assign_rest_angle i v)).
Proof.
  intros w [[Hl Ha Hr] Hs]. unfold keeps. cbn [final modify_space with_space space].
  split; [constructor; assumption|].
  rewrite skeleton_assign. exact Hs.
Qed.

Lemma keeps_step {E : Engine} (sk : list Constraint) (dt : float) :
  preserves (keeps sk) (modify_space (space_step dt)).
Proof.
  intros w [Hq Hs]. unfold keeps. cbn [final modify_space with_space space].
  destruct (space_step_quiet dt (space w) Hq) as [H1 [_ [_ [_ [H5 _]]]]].
  split; [exact H1|]. rewrite H5. exact Hs.
Qed.

Ltac keeps_leaf :=
  first [ match goal with
          | |- preserves _ (modify_space (space_step _)) => apply keeps_step
          | |- preserves _ (modify_space (assign_rest_angle _ _)) =>
              apply keeps_assign
          | |- preserves _ (modify_space (space_add _)) =>
              apply keeps_add_ball_items
          | |- preserves _ (modify_space _) => fail 2
          end
        | solve [same_space keeps_same_space]
        | solve [same_space keeps_same_space; apply same_space_randrange]
        | solve [same_space keeps_same_space; apply same_space_fill] ].

Lemma keeps_add_ball {R : Random} (sk : list Constraint) :
  preserves (keeps sk) Pinball2Paddles.add_ball.
Proof. unfold Pinball2Paddles.add_ball. pres_with keeps_leaf. Qed.

Lemma keeps_set_rest_angle (sk : list Constraint) (g : option obj_id) (v : number) :
  preserves (keeps sk) (set_rest_angle g v).
Proof. destruct g; cbn [set_rest_angle]; pres_with keeps_leaf. Qed.

Lemma keeps_event_two {R : Random} (sk : list Constraint) (e : event) :
  preserves (keeps sk) (Pinball2Paddles.handle_event e).
Proof.
  unfold Pinball2Paddles.handle_event.
  pres_with ltac:(first [ apply keeps_add_ball | apply keeps_set_rest_angle
                        | keeps_leaf ]).
Qed.

Lemma keeps_event_template (sk : list Constraint) (e : event) :
  preserves (keeps sk) (PinballTemplate.handle_event e).
Proof.
  unfold PinballTemplate.handle_event.
  pres_with ltac:(first [apply keeps_set_rest_angle | keeps_leaf]).
Qed.

Lemma keeps_render_and_step {E : Engine} (sk : list Constraint) :
  preserves (keeps sk) render_and_step.
Proof. unfold render_and_step, step_space. pres_with keeps_leaf. Qed.

Lemma keeps_loop_two {E : Engine} {R : Random} (sk : list Constraint)
      (input : list (list event)) :
  preserves (keeps sk) (Pinball2Paddles.main_loop input).
Proof.
  unfold Pinball2Paddles.main_loop. apply preserves_for_each. intros events w H.
  rewrite frame_two_paddles. revert w H. apply preserves_bind.
  - apply preserves_for_each. intros e. apply keeps_event_two.
  - intros _. apply keeps_render_and_step.
Qed.

Lemma keeps_loop_template {E : Engine} (sk : list Constraint)
      (input : list (list event)) :
  preserves (keeps sk) (PinballTemplate.main_loop input).
Proof.
  unfold PinballTemplate.main_loop. apply preserves_for_each. intros events w H.
  rewrite frame_template. revert w H. apply preserves_bind.
  - apply preserves_for_each. intros e. apply keeps_event_template.
  - intros _. apply keeps_render_and_step.
Qed.

(** ** The scripts from their start *)

Lemma main_two_runs {E : Engine} {R : Random} (input : list (list event)) (seed : N) :
  Pinball2Paddles.main input (start seed)
  = Pinball2Paddles.main_loop input (final (Pinball2Paddles.main [] (start seed))).
Proof.
  assert (H : exists w0,
             (modify_space (set_gravity (vec 0 (-900))) ;; Pinball2Paddles.setup)
               (start seed) = Ok tt w0)
    by (eexists; vm_compute; reflexivity).
  destruct H as [w0 H]. unfold Pinball2Paddles.main.
  rewrite <- !(bind_assoc (modify_space (set_gravity (vec 0 (-900))))
                          (fun _ => Pinball2Paddles.setup)).
  rewrite !(bind_ok _ _ _ _ _ H). reflexivity.
Qed.

Lemma main_template_runs {E : Engine} (input : list (list event)) (seed : N) :
  PinballTemplate.main input (start seed)
  = PinballTemplate.main_loop input (final (PinballTemplate.main [] (start seed))).
Proof.
  assert (H : exists w0,
             (modify_space (set_gravity (vec 0 (-900))) ;; PinballTemplate.setup)
               (start seed) = Ok tt w0)
    by (eexists; vm_compute; reflexivity).
  destruct H as [w0 H]. unfold PinballTemplate.main.
  rewrite <- !(bind_assoc (modify_space (set_gravity (vec 0 (-900))))
                          (fun _ => PinballTemplate.setup)).
  rewrite !(bind_ok _ _ _ _ _ H). reflexivity.
Qed.

Lemma quiet_after_setup_two {E : Engine} {R : Random} (seed : N) :
  quiet (space (final (Pinball2Paddles.main [] (start seed)))).
Proof. constructor; vm_compute; reflexivity. Qed.

Lemma quiet_after_setup_template {E : Engine} (seed : N) :
  quiet (space (final (PinballTemplate.main [] (start seed)))).
Proof. constructor; vm_compute; reflexivity. Qed.

(** What an event writes in the constraints: nothing, or the rest angle of
    the object one of the two global variables refers to. *)
Lemma event_writes_two {R : Random} (e : event) (w : World) :
  let sp' := space (final (Pinball2Paddles.handle_event e w)) in
  constraints sp' = constraints (space w) \/
  exists i v, (r_spring w = Some i \/ l_spring w = Some i) /\
              constraints sp' = constraints (assign_rest_angle i v (space w)).
Proof.
  cbv zeta.
  destruct e as [|k|k|n]; try destruct k; try (left; reflexivity).
  - left. unfold Pinball2Paddles.handle_event, bind, ret.
    cbv beta iota. rewrite add_ball_computed. cbv zeta. cbn [final space].
    unfold space_add. destruct (locked (space w)); reflexivity.
  - unfold Pinball2Paddles.handle_event, bind, ret, get_r_spring, get_l_spring.
    cbv beta iota. destruct (r_spring w) as [i|] eqn:Hr; [|left; reflexivity].
    right. exists i. eexists. split; [left; reflexivity|]. reflexivity.
  - unfold Pinball2Paddles.handle_event, bind, ret, get_r_spring, get_l_spring.
    cbv beta iota. destruct (l_spring w) as [i|] eqn:Hr; [|left; reflexivity].
    right. exists i. eexists. split; [right; reflexivity|]. reflexivity.
  - unfold Pinball2Paddles.handle_event, bind, ret, get_r_spring, get_l_spring.
    cbv beta iota. destruct (r_spring w) as [i|] eqn:Hr; [|left; reflexivity].
    right. exists i. eexists. split; [left; reflexivity|]. reflexivity.
  - unfold Pinball2Paddles.handle_event, bind, ret, get_r_spring, get_l_spring.
    cbv beta iota. destruct (l_spring w) as [i|] eqn:Hr; [|left; reflexivity].
    right. exists i. eexists. split; [right; reflexivity|]. reflexivity.
Qed.

Lemma event_writes_template (e : event) (w : World) :
  let sp' := space (final (PinballTemplate.handle_event e w)) in
  constraints sp' = constraints (space w) \/
  exists i v, r_spring w = Some i /\
              constraints sp' = constraints (assign_rest_angle i v (space w)).
Proof.
  cbv zeta.
  destruct e as [|k|k|n]; try destruct k; try (left; reflexivity).
  - unfold PinballTemplate.handle_event, bind, ret, get_r_spring.
    cbv beta iota. destruct (r_spring w) as [i|] eqn:Hr; [|left; reflexivity].
    right. exists i. eexists. split; reflexivity.
  - unfold PinballTemplate.handle_event, bind, ret, get_r_spring.
    cbv beta iota. destruct (r_spring w) as [i|] eqn:Hr; [|left; reflexivity].
    right. exists i. eexists. split; reflexivity.
Qed.

(** ** The global spring variables are assigned by setup only *)

Ltac globals_leaf :=
  first
    [ solve [ let w := fresh "w" in let H := fresh "H" in
              intros w H; exact H ]
    | solve [ let w := fresh "w" in let H := fresh "H" in
              intros w H; unfold randrange;
              destruct (_ <=? _)%Z; [exact H|];
              destruct (randbelow _ _); exact H ]
    | solve [ let w := fresh "w" in let H := fresh "H" in
              intros w H; unfold screen_fill;
              destruct (pygame_alive w); exact H ] ].

Lemma globals_set_rest_angle (l r g : option obj_id) (v : number) :
  preserves (globals_are l r) (set_rest_angle g v).
Proof. destruct g; cbn [set_rest_angle]; pres_with globals_leaf. Qed.

Lemma globals_event_two {R : Random} (l r : option obj_id) (e : event) :
  preserves (globals_are l r) (Pinball2Paddles.handle_event e).
Proof.
  unfold Pinball2Paddles.handle_event.
  pres_with ltac:(first [apply globals_set_rest_angle | globals_leaf]).
Qed.

Lemma globals_event_template (l r : option obj_id) (e : event) :
  preserves (globals_are l r) (PinballTemplate.handle_event e).
Proof.
  unfold PinballTemplate.handle_event.
  pres_with ltac:(first [apply globals_set_rest_angle | globals_leaf]).
Qed.

Lemma globals_render_and_step {E : Engine} (l r : option obj_id) :
  preserves (globals_are l r) render_and_step.
Proof. unfold render_and_step, step_space. pres_with globals_leaf. Qed.

Lemma globals_loop_two {E : Engine} {R : Random} (l r : option obj_id)
      (input : list (list event)) :
  preserves (globals_are l r) (Pinball2Paddles.main_loop input).
Proof.
  unfold Pinball2Paddles.main_loop. apply preserves_for_each. intros events w H.
  rewrite frame_two_paddles. revert w H. apply preserves_bind.
  - apply preserves_for_each. intros e. apply globals_event_two.
  - intros _. apply globals_render_and_step.
Qed.

Lemma globals_loop_template {E : Engine} (l r : option obj_id)
      (input : list (list event)) :
  preserves (globals_are l r) (PinballTemplate.main_loop input).
Proof.
  unfold PinballTemplate.main_loop. apply preserves_for_each. intros events w H.
  rewrite frame_template. revert w H. apply preserves_bind.
  - apply preserves_for_each. intros e. apply globals_event_template.
  - intros _. apply globals_render_and_step.
Qed.

(** ** A removed shape stays away *)

Lemma snapshots_app (t1 t2 : list Call) :
  snapshots (t1 ++ t2) = snapshots t1 ++ snapshots t2.
Proof. unfold snapshots. apply flat_map_app. Qed.

Lemma gone_log (i : obj_id) (t0 : list Call) (c : Call) :
  snapshots [c] = [] -> preserves (gone i t0) (log c).
Proof.
  intros Hc w [Hq [Hn [Hs [new [Ht Hsn]]]]].
  split; [exact Hq|]. split; [exact Hn|]. split; [exact Hs|].
  exists (new ++ [c]). cbn [final log trace with_trace]. split.
  - rewrite Ht, app_assoc. reflexivity.
  - intros snap. rewrite snapshots_app, Hc, app_nil_r. apply Hsn.
Qed.

Lemma gone_debug_draw (i : obj_id) (t0 : list Call) :
  preserves (gone i t0) debug_draw.
Proof.
  intros w [Hq [Hn [Hs [new [Ht Hsn]]]]].
  split; [exact Hq|]. split; [exact Hn|]. split; [exact Hs|].
  exists (new ++ [call_debug_draw (shapes (space w))]).
  cbn [final debug_draw log trace with_trace]. split.
  - rewrite Ht, app_assoc. reflexivity.
  - intros snap. rewrite snapshots_app. cbn.
    intros H. apply in_app_or in H. destruct H as [H|[<-|[]]].
    + apply Hsn, H.
    + exact Hs.
Qed.

Lemma gone_same (i : obj_id) (t0 : list Call) (w w' : World) :
  space w' = space w -> next_id w <= next_id w' -> trace w' = trace w ->
  gone i t0 w -> gone i t0 w'.
Proof.
  intros H1 H2 H3 [Hq [Hn [Hs Ht]]]. unfold gone.
  rewrite H1, H3. split; [exact Hq|]. split; [lia|]. split; assumption.
Qed.

Ltac gone_same_tac :=
  let w := fresh "w" in
  let H := fresh "H" in
  intros w H; apply (gone_same _ _ w); [| | |exact H];
  cbn; try reflexivity; try lia.

Lemma gone_randrange {R : Random} (i : obj_id) (t0 : list Call) (a b : Z) :
  preserves (gone i t0) (randrange a b).
Proof.
  intros w H. unfold randrange. destruct (b <=? a)%Z; [exact H|].
  destruct (randbelow (rng w) (b - a)). exact H.
Qed.

Lemma gone_fill (i : obj_id) (t0 : list Call) : preserves (gone i t0) screen_fill.
Proof.
  intros w H. unfold screen_fill. destruct (pygame_alive w); [|exact H].
  revert w H. apply (gone_log i t0 call_fill). reflexivity.
Qed.

Lemma gone_assign (i : obj_id) (t0 : list Call) (j : obj_id) (v : number) :
  preserves (gone i t0) (modify_space (assign_rest_angle j v)).
Proof.
  intros w [[Hl Ha Hr] [Hn [Hs Ht]]].
  split; [constructor; assumption|]. split; [exact Hn|]. split; [exact Hs|].
  exact Ht.
Qed.

Lemma gone_step {E : Engine} (i : obj_id) (t0 : list Call) (dt : float) :
  preserves (gone i t0) (modify_space (space_step dt)).
Proof.
  intros w [Hq [Hn [Hs Ht]]]. unfold gone.
  cbn [final modify_space with_space space next_id trace].
  destruct (space_step_quiet dt (space w) Hq) as [H1 [_ [_ [_ [_ [H6 _]]]]]].
  split; [exact H1|]. split; [exact Hn|]. split; [|exact Ht].
  unfold has_shape in *. rewrite H6. intros H. apply Hs.
  apply in_map_iff in H. destruct H as [s [Hid Hin]].
  apply filter_In in Hin. apply in_map_iff. exists s. tauto.
Qed.

Lemma gone_add_ball {R : Random} (i : obj_id) (t0 : list Call) :
  preserves (gone i t0) Pinball2Paddles.add_ball.
Proof.
  intros w [Hq [Hn [Hs [new [Ht Hsn]]]]].
  rewrite add_ball_computed. cbv zeta. unfold gone.
  cbn [final space next_id trace].
  match goal with
  | |- context [space_add [BodyItem ?b; ShapeItem ?s] _] =>
      destruct (add_ball_items_quiet b s (space w) Hq) as [H1 [_ [_ [H4 _]]]]
  end.
  split; [exact H1|]. split; [lia|]. split.
  - unfold has_shape in *. rewrite H4, map_app, in_app_iff. cbn.
    intros [H|[H|[]]]; [exact (Hs H)|lia].
  - exists (new ++ [call_add
                      [BodyItem (mkBody (next_id w) DYNAMIC (Int 1) inf
                                        (Int (100 + fst (randbelow (rng w) (500 - 100))),
                                         Int 750) (zero, zero) zero zero);
                       ShapeItem (mkShape (S (next_id w)) (next_id w)
                                          (CircleGeom (Int 13) (zero, zero))
                                          (Float 0.4) zero (collision_types ball))]]).
    split; [rewrite Ht, app_assoc; reflexivity|].
    intros snap. rewrite snapshots_app. cbn. rewrite app_nil_r. apply Hsn.
Qed.

Ltac gone_leaf :=
  first [ match goal with
          | |- preserves _ Pinball2Paddles.add_ball => apply gone_add_ball
          | |- preserves _ (randrange _ _) => apply gone_randrange
          | |- preserves _ screen_fill => apply gone_fill
          | |- preserves _ debug_draw => apply gone_debug_draw
          | |- preserves _ (modify_space (assign_rest_angle _ _)) =>
              apply gone_assign
          | |- preserves _ (modify_space (space_step _)) => apply gone_step
          | |- preserves _ (modify_space _) => fail 2
          | |- preserves _ (log _) => apply gone_log; reflexivity
          end
        | solve [gone_same_tac] ].

Lemma gone_set_rest_angle (i : obj_id) (t0 : list Call) (g : option obj_id)
      (v : number) :
  preserves (gone i t0) (set_rest_angle g v).
Proof. destruct g; cbn [set_rest_angle]; pres_with gone_leaf. Qed.

Lemma gone_event_two {R : Random} (i : obj_id) (t0 : list Call) (e : event) :
  preserves (gone i t0) (Pinball2Paddles.handle_event e).
Proof.
  unfold Pinball2Paddles.handle_event, pygame_quit.
  pres_with ltac:(first [apply gone_set_rest_angle | gone_leaf]).
Qed.

Lemma gone_event_template (i : obj_id) (t0 : list Call) (e : event) :
  preserves (gone i t0) (PinballTemplate.handle_event e).
Proof.
  unfold PinballTemplate.handle_event, pygame_quit.
  pres_with ltac:(first [apply gone_set_rest_angle | gone_leaf]).
Qed.

Lemma gone_perform {E : Engine} (handle : event -> M unit) (i : obj_id)
      (t0 : list Call) (o : Op) :
  (forall e, preserves (gone i t0) (handle e)) ->
  preserves (gone i t0) (perform handle o).
Proof.
  intros Hh. destruct o; cbn [perform];
    unfold step_space, display_flip, clock_tick;
    pres_with ltac:(first [apply Hh | gone_leaf]).
Qed.

(** ** A frame is a sequence of calls *)

Lemma render_and_step_is_ops {E : Engine} (handle : event -> M unit) (w : World) :
  render_and_step w
  = for_each ([op_fill; op_draw] ++ repeat (op_step substep_dt) 5
                ++ [op_flip; op_tick (Int 60)])
             (perform handle) w.
Proof.
  destruct (pygame_alive w) eqn:Ha.
  - rewrite (render_and_step_alive w Ha).
    destruct w as [sp l r n g a t]. cbn in Ha. subst a.
    unfold stepped. cbn. repeat rewrite <- app_assoc. reflexivity.
  - rewrite (render_and_step_dead w Ha).
    cbn [repeat app for_each perform]. unfold bind, screen_fill.
    rewrite Ha. reflexivity.
Qed.

Lemma frame_is_ops {E : Engine} (handle : event -> M unit) (events : list event)
      (w : World) :
  (for_each events handle ;; render_and_step) w
  = for_each (frame_ops events) (perform handle) w.
Proof.
  unfold frame_ops. rewrite for_each_app. unfold bind. rewrite for_each_map.
  cbn [perform].
  change (for_each events (fun x => handle x) w) with (for_each events handle w).
  destruct (for_each events handle w) as [[] w1|e w1]; [|reflexivity].
  apply render_and_step_is_ops.
Qed.

(** ** The state between two calls is settled *)

Lemma settled_quiet (w : World) : settled w -> quiet (space w).
Proof. intros [H1 H2 H3 _ _]. constructor; assumption. Qed.

Lemma settled_same (w w' : World) :
  space w' = space w -> next_id w <= next_id w' -> settled w -> settled w'.
Proof.
  intros H1 H2 [S1 S2 S3 S4 S5]. constructor; rewrite H1; try assumption.
  intros s Hs. specialize (S5 s Hs). lia.
Qed.

Ltac settled_same_tac :=
  let w := fresh "w" in
  let H := fresh "H" in
  intros w H; apply (settled_same w); [| |exact H];
  cbn; try reflexivity; try lia.

Lemma settled_randrange {R : Random} (a b : Z) : preserves settled (randrange a b).
Proof.
  intros w H. unfold randrange. destruct (b <=? a)%Z; [exact H|].
  destruct (randbelow (rng w) (b - a)).
  apply (settled_same w); [reflexivity|cbn; lia|exact H].
Qed.

Lemma settled_fill : preserves settled screen_fill.
Proof.
  intros w H. unfold screen_fill. destruct (pygame_alive w); [|exact H].
  apply (settled_same w); [reflexivity|cbn; lia|exact H].
Qed.

Lemma settled_assign (j : obj_id) (v : number) :
  preserves settled (modify_space (assign_rest_angle j v)).
Proof. intros w [S1 S2 S3 S4 S5]. constructor; assumption. Qed.

Lemma settled_step {E : Engine} (dt : float) :
  preserves settled (modify_space (space_step dt)).
Proof.
  intros w Hs. pose proof (settled_quiet w Hs) as Hq.
  destruct Hs as [S1 S2 S3 S4 S5].
  destruct (space_step_quiet dt (space w) Hq)
    as [[Q1 Q2 Q3] [_ [_ [H4 [_ [H6 _]]]]]].
  constructor; cbn [final modify_space with_space space next_id];
    try assumption.
  - rewrite H4. exact S4.
  - intros s Hin. rewrite H6 in Hin. apply filter_In in Hin. apply S5, Hin.
Qed.

Lemma settled_add_ball {R : Random} : preserves settled Pinball2Paddles.add_ball.
Proof.
  intros w Hs. pose proof (settled_quiet w Hs) as Hq.
  destruct Hs as [S1 S2 S3 S4 S5].
  rewrite add_ball_computed. cbv zeta.
  match goal with
  | |- context [space_add [BodyItem ?b; ShapeItem ?s] _] =>
      destruct (add_ball_items_quiet b s (space w) Hq)
        as [[Q1 Q2 Q3] [_ [H3 [H4 _]]]]
  end.
  constructor; cbn [final space next_id]; try assumption.
  - rewrite H3. exact S4.
  - intros s Hin. rewrite H4 in Hin. apply in_app_or in Hin.
    destruct Hin as [Hin|[<-|[]]]; [specialize (S5 s Hin); lia|cbn; lia].
Qed.

Ltac settled_leaf :=
  first [ match goal with
          | |- preserves _ Pinball2Paddles.add_ball => apply settled_add_ball
          | |- preserves _ (randrange _ _) => apply settled_randrange
          | |- preserves _ screen_fill => apply settled_fill
          | |- preserves _ (modify_space (assign_rest_angle _ _)) =>
              apply settled_assign
          | |- preserves _ (modify_space (space_step _)) => apply settled_step
          | |- preserves _ (modify_space _) => fail 2
          end
        | solve [settled_same_tac] ].

Lemma settled_set_rest_angle (g : option obj_id) (v : number) :
  preserves settled (set_rest_angle g v).
Proof. destruct g; cbn [set_rest_angle]; pres_with settled_leaf. Qed.

Lemma settled_event_two {R : Random} (e : event) :
  preserves settled (Pinball2Paddles.handle_event e).
Proof.
  unfold Pinball2Paddles.handle_event, pygame_quit.
  pres_with ltac:(first [apply settled_set_rest_angle | settled_leaf]).
Qed.

Lemma settled_event_template (e : event) :
  preserves settled (PinballTemplate.handle_event e).
Proof.
  unfold PinballTemplate.handle_event, pygame_quit.
  pres_with ltac:(first [apply settled_set_rest_angle | settled_leaf]).
Qed.

Lemma settled_perform {E : Engine} (handle : event -> M unit) (o : Op) :
  (forall e, preserves settled (handle e)) ->
  preserves settled (perform handle o).
Proof.
  intros Hh. destruct o; cbn [perform];
    unfold step_space, display_flip, clock_tick, debug_draw;
    pres_with ltac:(first [apply Hh | settled_leaf]).
Qed.

Lemma settled_after_setup_two {E : Engine} {R : Random} (seed : N) :
  settled (final (Pinball2Paddles.main [] (start seed))).
Proof.
  constructor; try (vm_compute; reflexivity).
  intros s. vm_compute.
  intros H. repeat (destruct H as [<-|H]; [cbn; lia|]). destruct H.
Qed.

Lemma settled_after_setup_template {E : Engine} (seed : N) :
  settled (final (PinballTemplate.main [] (start seed))).
Proof.
  constructor; try (vm_compute; reflexivity).
  intros s. vm_compute.
  intros H. repeat (destruct H as [<-|H]; [cbn; lia|]). destruct H.
Qed.

(** ** A ball that meets the out-of-bounds segment *)

Lemma find_shape_In (i : obj_id) (l : list Shape) (s : Shape) :
  find_shape i l = Some s -> In s l /\ shape_id s = i.
Proof.
  induction l as [|x l IH]; cbn; [discriminate|].
  destruct (Nat.eqb (shape_id x) i) eqn:Hx.
  - intros H. inversion H. subst x. split; [left; reflexivity|].
    apply Nat.eqb_eq. exact Hx.
  - intros H. destruct (IH H) as [H1 H2]. split; [right; exact H1|exact H2].
Qed.

Lemma removes_shape_flat_map {A : Type} (f : A -> list ItemRef) (l : list A)
      (p : A) (i : obj_id) :
  In p l -> removes_shape (f p) i = true -> removes_shape (flat_map f l) i = true.
Proof.
  unfold removes_shape. intros Hp H. apply existsb_exists in H.
  destruct H as [r [Hr Hi]]. apply existsb_exists. exists r.
  split; [|exact Hi]. apply in_flat_map. exists p. auto.
Qed.

Lemma removes_body_flat_map {A : Type} (f : A -> list ItemRef) (l : list A)
      (p : A) (i : obj_id) :
  In p l -> removes_body (f p) i = true -> removes_body (flat_map f l) i = true.
Proof.
  unfold removes_body. intros Hp H. apply existsb_exists in H.
  destruct H as [r [Hr Hi]]. apply existsb_exists. exists r.
  split; [|exact Hi]. apply in_flat_map. exists p. auto.
Qed.

(** Whatever the order in which the pair is found, the handler registered for
    (ball, boundary) is the one called, with the ball as first shape; it asks
    for the removal of the ball's shape and body and answers [False]. *)
Lemma verdict_ball_boundary (sp : Space) (s t : Shape) :
  handlers sp = [ball_handler] ->
  find_shape (shape_id s) (shapes sp) = Some s ->
  find_shape (shape_id t) (shapes sp) = Some t ->
  collision_type s = collision_types ball ->
  collision_type t = collision_types boundary ->
  pair_verdict sp (shape_id s, shape_id t)
  = Some ([ShapeRef (shape_id s); BodyRef (shape_body s)], false) /\
  pair_verdict sp (shape_id t, shape_id s)
  = Some ([ShapeRef (shape_id s); BodyRef (shape_body s)], false).
Proof.
  intros Hh Hs Ht Hcs Hct. unfold pair_verdict. cbn [fst snd].
  rewrite Hs, Ht, Hh, Hcs, Hct. split; reflexivity.
Qed.

Lemma detection_space_shapes {E : Engine} (dt : float) (sp : Space) :
  shapes (detection_space dt sp) = shapes sp /\
  handlers (detection_space dt sp) = handlers sp.
Proof. split; reflexivity. Qed.

Lemma responding_filter {E : Engine} (dt : float) (sp : Space) :
  responding dt sp
  = filter (responds (detection_space dt sp))
           (overlapping (detection_space dt sp)).
Proof.
  unfold responding. fold (detection_space dt sp).
  rewrite dispatch_locked by reflexivity. reflexivity.
Qed.

(** The substep in which a ball is found overlapping the boundary segment. *)
Lemma substep_removes_ball {E : Engine} (dt : float) (sp : Space) (s t : Shape) :
  quiet sp ->
  handlers sp = [ball_handler] ->
  find_shape (shape_id s) (shapes sp) = Some s ->
  find_shape (shape_id t) (shapes sp) = Some t ->
  collision_type s = collision_types ball ->
  collision_type t = collision_types boundary ->
  In (shape_id s, shape_id t) (overlapping (detection_space dt sp)) \/
  In (shape_id t, shape_id s) (overlapping (detection_space dt sp)) ->
  ~ has_shape (shape_id s) (space_step dt sp) /\
  ~ has_body (shape_body s) (space_step dt sp) /\
  ~ In (shape_id s, shape_id t) (responding dt sp) /\
  ~ In (shape_id t, shape_id s) (responding dt sp).
Proof.
  intros Hq Hh Hs Ht Hcs Hct Hfound.
  destruct (detection_space_shapes dt sp) as [Hsh Hha].
  destruct (verdict_ball_boundary (detection_space dt sp) s t)
    as [V1 V2]; try assumption;
    try (rewrite Hsh; assumption); try (rewrite Hha; assumption).
  destruct (space_step_quiet dt sp Hq) as [_ [_ [_ [_ [_ [H6 H7]]]]]].
  assert (Hrs : removes_shape (substep_removals dt sp) (shape_id s) = true).
  { unfold substep_removals. destruct Hfound as [Hp|Hp];
      apply (removes_shape_flat_map _ _ _ _ Hp);
      unfold removals_of; [rewrite V1|rewrite V2];
      cbn; rewrite Nat.eqb_refl; reflexivity. }
  assert (Hrb : removes_body (substep_removals dt sp) (shape_body s) = true).
  { unfold substep_removals. destruct Hfound as [Hp|Hp];
      apply (removes_body_flat_map _ _ _ _ Hp);
      unfold removals_of; [rewrite V1|rewrite V2];
      cbn; rewrite Nat.eqb_refl; reflexivity. }
  split.
  { unfold has_shape. rewrite H6. intros H. apply in_map_iff in H.
    destruct H as [x [Hid Hin]]. apply filter_In in Hin.
    destruct Hin as [_ Hf]. rewrite Hid, Hrs in Hf. discriminate. }
  split.
  { unfold has_body. intros H. apply H7 in H. destruct H as [_ H].
    rewrite Hrb in H. discriminate. }
  rewrite responding_filter.
  split; intros H; apply filter_In in H; destruct H as [_ H];
    unfold responds in H; [rewrite V1 in H|rewrite V2 in H]; discriminate.
Qed.

Lemma gone_start (i : obj_id) (w : World) :
  quiet (space w) -> i < next_id w -> ~ has_shape i (space w) ->
  gone i (trace w) w.
Proof.
  intros Hq Hn Hs. split; [exact Hq|]. split; [exact Hn|]. split; [exact Hs|].
  exists []. rewrite app_nil_r. split; [reflexivity|]. intros snap [].
Qed.

(** ** Degenerate geometry is decided *)

Lemma all_left_iff (ps : list (Q * Q)) :
  Degeneracy.all_left ps = true <->
  forall e v, In e (Degeneracy.edges ps) -> In v ps ->
              (0 <= Degeneracy.cross (fst e) (snd e) v)%Q.
Proof.
  unfold Degeneracy.all_left. rewrite forallb_forall. split.
  - intros H e v He Hv. specialize (H e He). rewrite forallb_forall in H.
    apply Qle_bool_iff, H, Hv.
  - intros H e He. apply forallb_forall. intros v Hv.
    apply Qle_bool_iff, H; assumption.
Qed.

Lemma all_right_iff (ps : list (Q * Q)) :
  Degeneracy.all_right ps = true <->
  forall e v, In e (Degeneracy.edges ps) -> In v ps ->
              (Degeneracy.cross (fst e) (snd e) v <= 0)%Q.
Proof.
  unfold Degeneracy.all_right. rewrite forallb_forall. split.
  - intros H e v He Hv. specialize (H e He). rewrite forallb_forall in H.
    apply Qle_bool_iff, H, Hv.
  - intros H e He. apply forallb_forall. intros v Hv.
    apply Qle_bool_iff, H; assumption.
Qed.

Lemma has_area_iff (ps : list (Q * Q)) :
  Degeneracy.has_area ps = true <->
  exists e v, In e (Degeneracy.edges ps) /\ In v ps /\
              ~ (Degeneracy.cross (fst e) (snd e) v == 0)%Q.
Proof.
  unfold Degeneracy.has_area. rewrite existsb_exists. split.
  - intros [e [He H]]. apply existsb_exists in H. destruct H as [v [Hv H]].
    exists e, v. split; [exact He|]. split; [exact Hv|].
    apply negb_true_iff in H. intros Heq. apply Qeq_bool_iff in Heq. congruence.
  - intros [e [v [He [Hv H]]]]. exists e. split; [exact He|].
    apply existsb_exists. exists v. split; [exact Hv|].
    apply negb_true_iff. destruct (Qeq_bool _ 0) eqn:Hb; [|reflexivity].
    exfalso. apply H, Qeq_bool_iff, Hb.
Qed.

Lemma convexb_iff (ps : list (Q * Q)) :
  Degeneracy.convexb ps = true <-> Degeneracy.convex ps.
Proof.
  unfold Degeneracy.convexb, Degeneracy.convex.
  rewrite !andb_true_iff, orb_true_iff, Nat.leb_le, has_area_iff,
    all_left_iff, all_right_iff. tauto.
Qed.

Lemma degenerate_has_defect (g : Geometry) (d : Degeneracy.defect) :
  Degeneracy.degenerate g d -> Degeneracy.defect_of g = Some d.
Proof.
  intros H. destruct H as [r o q Hr Hq|a b r p q Ha Hb Hx Hy|vs ps Hv Hc];
    cbn [Degeneracy.defect_of].
  - rewrite Hr. apply Qeq_bool_iff in Hq. rewrite Hq. reflexivity.
  - rewrite Ha, Hb. unfold Degeneracy.same_point.
    apply Qeq_bool_iff in Hx, Hy. rewrite Hx, Hy. reflexivity.
  - rewrite Hv. destruct (Degeneracy.convexb ps) eqn:Hb; [|reflexivity].
    exfalso. apply Hc, convexb_iff, Hb.
Qed.

Lemma sound_geometry (g : Geometry) :
  Degeneracy.defect_of g = None -> forall d, ~ Degeneracy.degenerate g d.
Proof.
  intros H d Hd. rewrite (degenerate_has_defect g d Hd) in H. discriminate.
Qed.

Lemma sound_geometries (l : list Shape) :
  forallb (fun s => match Degeneracy.defect_of (geometry s) with
                    | None => true
                    | Some _ => false
                    end) l = true ->
  forall s, In s l -> forall d, ~ Degeneracy.degenerate (geometry s) d.
Proof.
  intros H s Hs. rewrite forallb_forall in H. specialize (H s Hs).
  apply sound_geometry.
  destruct (Degeneracy.defect_of (geometry s)); [discriminate|reflexivity].
Qed.

(** * The statements of the specification *)


(** C5.  What a frame adds to the trace of calls is the commands of its event
    loop (additions to the space, assignments of a rest angle, the request to
    quit), followed by calls that are no commands: the drawing, the five
    steps and the end of the frame.  So every command of a frame is applied
    before the first substep of that frame, and none between two substeps.
    Both scripts. *)
Theorem commands_precede_substeps {E : Engine} {R : Random}
        (events : list event) (w : World) :
  let ordered (handle : event -> M unit) (r : Result unit) : Prop :=
    exists cmds rest,
      trace (final (for_each events handle w)) = trace w ++ cmds /\
      trace (final r) = trace w ++ cmds ++ rest /\
      forallb is_command cmds = true /\
      forallb (fun c => negb (is_step c)) cmds = true /\
      forallb (fun c => negb (is_command c)) rest = true /\
      (rest = [] \/
       filter is_step rest = repeat (call_step (to_float substep_dt)) 5) in
  ordered Pinball2Paddles.handle_event (Pinball2Paddles.frame events w) /\
  ordered PinballTemplate.handle_event (PinballTemplate.frame events w).
Proof.
  intros ordered. split.
  - destruct (frame_trace Pinball2Paddles.handle_event events w
                (fun t0 e => commands_since_event_two t0 e))
      as [cmds [rest [H1 [H2 [H3 H4]]]]].
    exists cmds, rest. rewrite frame_two_paddles.
    repeat split; auto using commands_are_not_steps.
    + destruct H4 as [->| ->]; reflexivity.
    + destruct H4 as [->| ->]; [left|right]; reflexivity.
  - destruct (frame_trace PinballTemplate.handle_event events w
                (fun t0 e => commands_since_event_template t0 e))
      as [cmds [rest [H1 [H2 [H3 H4]]]]].
    exists cmds, rest. rewrite frame_template.
    repeat split; auto using commands_are_not_steps.
    + destruct H4 as [->| ->]; reflexivity.
    + destruct H4 as [->| ->]; [left|right]; reflexivity.
Qed.

(** C3.  A call of [add_ball] creates one body and one shape and hands both
    to [space.add]: the body has mass 1 and moment [pymunk.inf], and lies at
    [(x, 750)] for a drawn integer [x] with [100 <= x < 500]; the shape is a
    circle of radius 13 on that body, of elasticity 0.4 (which is not zero)
    and of the collision type of "ball".  Called outside a step, the space
    gains exactly this body and this shape and nothing else changes. *)
Theorem add_ball_creates_one_ball {R : Random} (w : World) :
  locked (space w) = false ->
  exists x w',
    let body :=
      mkBody (next_id w) DYNAMIC (Int 1) (Float PrimFloat.infinity)
             (Int x, Int 750) (zero, zero) zero zero in
    let shape :=
      mkShape (S (next_id w)) (body_id body) (CircleGeom (Int 13) (zero, zero))
              (Float 0.4) zero (collision_types ball) in
    Pinball2Paddles.add_ball w = Ok tt w' /\
    (100 <= x < 500)%Z /\
    trace w' = trace w ++ [call_add [BodyItem body; ShapeItem shape]] /\
    bodies (space w') = bodies (space w) ++ [body] /\
    shapes (space w') = shapes (space w) ++ [shape] /\
    constraints (space w') = constraints (space w) /\
    PrimFloat.eqb (to_float (elasticity shape)) 0 = false /\
    PrimFloat.ltb (to_float (mass body)) PrimFloat.infinity = true.
Proof.
  intros Hl.
  exists (100 + fst (randbelow (rng w) (500 - 100)))%Z.
  eexists. split; [apply add_ball_computed|].
  split; [apply randrange_drawn|].
  cbn [space trace]. rewrite (space_add_unlocked _ _ Hl).
  repeat split.
Qed.

Lemma add_ball_creates_one_ball_witness :
  exists x w',
    @Pinball2Paddles.add_ball lcg (start 7) = Ok tt w' /\
    (100 <= x < 500)%Z /\
    List.length (bodies (space w')) = 1 /\
    List.length (shapes (space w')) = 1.
Proof.
  destruct (@add_ball_creates_one_ball lcg (start 7) eq_refl)
    as [x [w' [H1 [H2 [_ [H4 [H5 _]]]]]]].
  exists x, w'. rewrite H4, H5. repeat split; try exact H1; apply H2.
Defined.

(** C10.  The ball [add_ball] creates starts at [(x, 750)] with an integer
    [x], [100 <= x < 500].  The third, fourth and fifth segments that
    [setup_boundaries] builds are the left wall [x = 50], the right wall
    [x = 550] and the top wall [y = 800]; the centre of the ball lies strictly
    between the two side walls and strictly below the top wall, and so does
    the whole disc of radius 13, clear of the walls' own radius 5. *)
Theorem ball_starts_inside_playfield {E : Engine} {R : Random}
        (seed : N) (w : World) :
  let playfield :=
    segment_geometries (space (final (Pinball2Paddles.setup (start seed)))) in
  nth_error playfield 2 = Some (SegmentGeom (vec 50 160) (vec 50 800) (Int 5)) /\
  nth_error playfield 3 = Some (SegmentGeom (vec 550 800) (vec 550 160) (Int 5)) /\
  nth_error playfield 4 = Some (SegmentGeom (vec 50 800) (vec 550 800) (Int 5)) /\
  exists x body shape w',
    Pinball2Paddles.add_ball w = Ok tt w' /\
    trace w' = trace w ++ [call_add [BodyItem body; ShapeItem shape]] /\
    position body = (Int x, Int 750) /\
    geometry shape = CircleGeom (Int 13) (zero, zero) /\
    shape_body shape = body_id body /\
    (100 <= x < 500)%Z /\
    (50 < x < 550)%Z /\ (750 < 800)%Z /\
    (50 + 5 < x - 13)%Z /\ (x + 13 < 550 - 5)%Z /\ (750 + 13 < 800 - 5)%Z.
Proof.
  intros playfield.
  split; [reflexivity|]. split; [reflexivity|]. split; [reflexivity|].
  pose proof (randrange_drawn (rng w)) as Hx.
  eexists _, _, _, _. split; [apply add_ball_computed|].
  cbn [trace position geometry shape_body body_id].
  repeat split; try lia.
Qed.

(** C7.  A ball at rest on the spawn line, at [(x, 750)], under gravity
    [(0, -900)], integrated for 60 frames of 5 substeps of [1/300] s each by
    the semi-implicit Euler scheme of the specification, with no contact on
    the way: it keeps its abscissa, reaches the speed 900 downwards, and its
    ordinate has dropped by [451.5], that is by [450] up to the error
    [900 * dt / 2 = 1.5] of the scheme, one third of a percent. *)
Theorem free_fall_one_second (x : Z) :
  let dt := (Integrator.frame_time / Integrator.qc 5)%Qc in
  let s := Integrator.simulate Integrator.gravity Integrator.frame_time 60
                               (Integrator.spawned x) in
  let drop := (Integrator.qc 750 - snd (Integrator.pos s))%Qc in
  dt = Q2Qc (1 # 300) /\
  fst (Integrator.pos s) = Integrator.qc x /\
  Integrator.vel s = (Integrator.qc 0, Integrator.qc (-900)) /\
  drop = Q2Qc (903 # 2) /\
  (drop - Integrator.qc 450 = Integrator.qc 900 * dt / Integrator.qc 2)%Qc /\
  ((drop - Integrator.qc 450) / Integrator.qc 450 = Q2Qc (1 # 300))%Qc /\
  (Integrator.qc 450 <= drop)%Qc /\ (drop <= Integrator.qc 452)%Qc.
Proof.
  intros dt s drop.
  assert (Hdt : dt = Q2Qc (1 # 300)) by (apply Qc_is_canon; reflexivity).
  assert (Hs : s = Integrator.mkState (Integrator.qc x, Q2Qc (597 # 2)) (Integrator.qc 0, Integrator.qc (-900))).
  { unfold s. rewrite simulate_is_substeps, substeps_closed_form. cbv zeta.
    fold dt. rewrite Hdt.
    cbn [Integrator.spawned Integrator.pos Integrator.vel Integrator.gravity
         fst snd].
    f_equal; f_equal; try (apply Qc_is_canon; vm_compute; reflexivity).
    replace (Integrator.qc 0) with 0%Qc by (symmetry; apply qc_0).
    field. discriminate. }
  assert (Hdrop : drop = Q2Qc (903 # 2)).
  { unfold drop. rewrite Hs. cbn [Integrator.pos snd].
    apply Qc_is_canon. reflexivity. }
  split; [exact Hdt|]. split; [rewrite Hs; reflexivity|].
  split; [rewrite Hs; reflexivity|]. split; [exact Hdrop|].
  rewrite Hdrop, Hdt.
  split; [apply Qc_is_canon; reflexivity|].
  split; [apply Qc_is_canon; reflexivity|].
  split; unfold Qcle; vm_compute; discriminate.
Qed.

(** C8.  The single-paddle script is an instance of the same scene setup as
    the two-paddle script.  Their [setup_boundaries] are the same function,
    the boundary setup of the shared configuration [Scene.playfield]; the
    [setup] of each is the parameterised [Scene.setup] on its list of
    paddles, [[paddle_at_400]] for the template and
    [[paddle_at_200; paddle_at_400]] for the two-paddle script.  Run from the
    start, both leave the same segments and the same (ball, boundary)
    handler, and the template's one actuator is the two-paddle script's
    actuator at (400, 60): vertices ((0,0),(-80,0),(-80,20),(0,20)), mass
    10000, pivot and static anchor at (400, 60), a pin joint between anchor
    and paddle, stiffness 5E10, damping 2E9, rest angle pi/6. *)
Theorem template_is_configuration_instance {E : Engine} (seed : N) (w : World) :
  let template := final (PinballTemplate.setup (start seed)) in
  let two_paddles := final (Pinball2Paddles.setup (start seed)) in
  let actuator :=
    mkActuator [vec 0 0; vec (-80) 0; vec (-80) 20; vec 0 20]
               (Int 10000)
               (moment_for_poly (Int 10000)
                                [vec 0 0; vec (-80) 0; vec (-80) 20; vec 0 20])
               (vec 400 60) STATIC (vec 400 60) true
               (truediv math_pi (Int 6)) (Float 5e10) (Float 2e9) in
  PinballTemplate.setup_boundaries w = Pinball2Paddles.setup_boundaries w /\
  PinballTemplate.setup_boundaries w = Scene.setup_boundaries Scene.playfield w /\
  PinballTemplate.setup w
  = (springs <- Scene.setup Scene.playfield [Scene.paddle_at_400] ;;
     Scene.bind_template springs) w /\
  Pinball2Paddles.setup w
  = (springs <- Scene.setup Scene.playfield
                            [Scene.paddle_at_200; Scene.paddle_at_400] ;;
     Scene.bind_two_paddles springs) w /\
  filter is_segment (shapes (space template))
  = filter is_segment (shapes (space two_paddles)) /\
  List.length (filter is_segment (shapes (space template))) = 6 /\
  handlers (space template) = handlers (space two_paddles) /\
  handlers (space template) = [ball_handler] /\
  actuator_of (space template) (r_spring template) = Some actuator /\
  actuator_of (space two_paddles) (l_spring two_paddles) = Some actuator /\
  List.length (constraints (space template)) = 2 /\
  List.length (constraints (space two_paddles)) = 4.
Proof.
  intros template two_paddles actuator.
  do 11 (split; [vm_compute; reflexivity|]).
  vm_compute; reflexivity.
Qed.

(** C4.  The constraints a script creates at setup are, for each paddle, a
    pin joint and a damped rotary spring.  However long the main loop runs
    and whatever the events, the space holds the same constraints, in the
    same order, each on the same two bodies, each pin joint unchanged and
    each spring with the stiffness 5E10 and damping 2E9 it was given: they
    are the constraints of setup up to the rest angles.  The global spring
    variables keep referring to the springs (objects 11 and 16) setup bound
    them to.  An event writes nothing in the constraints but a rest angle,
    and that of the object a global spring variable refers to.  Both
    scripts. *)
Theorem commands_write_only_rest_angles {E : Engine} {R : Random}
        (seed : N) (input : list (list event)) :
  let pin i anchor body :=
    mkConstraint i anchor body (PinJointKind (zero, zero) (zero, zero)) in
  let spring i body anchor :=
    mkConstraint i body anchor
                 (DampedRotarySpringKind (Int 0) (Float 5e10) (Float 2e9)) in
  map without_rest_angle
      (constraints (space (final (Pinball2Paddles.main input (start seed)))))
  = [pin 10 9 7; spring 11 7 9; pin 15 14 12; spring 16 12 14] /\
  map without_rest_angle
      (constraints (space (final (PinballTemplate.main input (start seed)))))
  = [pin 10 9 7; spring 11 7 9] /\
  globals_are (Some 16) (Some 11)
              (final (Pinball2Paddles.main input (start seed))) /\
  globals_are None (Some 11)
              (final (PinballTemplate.main input (start seed))) /\
  (forall e w,
     let sp' := space (final (Pinball2Paddles.handle_event e w)) in
     constraints sp' = constraints (space w) \/
     exists i v, (r_spring w = Some i \/ l_spring w = Some i) /\
                 constraints sp' = constraints (assign_rest_angle i v (space w))) /\
  (forall e w,
     let sp' := space (final (PinballTemplate.handle_event e w)) in
     constraints sp' = constraints (space w) \/
     exists i v, r_spring w = Some i /\
                 constraints sp' = constraints (assign_rest_angle i v (space w))) /\
  (forall i v sp,
     map without_rest_angle (constraints (assign_rest_angle i v sp))
     = map without_rest_angle (constraints sp)) /\
  (forall c c',
     without_rest_angle c = without_rest_angle c' ->
     constraint_id c = constraint_id c' /\
     constraint_a c = constraint_a c' /\
     constraint_b c = constraint_b c' /\
     match constraint_kind c, constraint_kind c' with
     | PinJointKind p q, PinJointKind p' q' => p = p' /\ q = q'
     | DampedRotarySpringKind _ k d, DampedRotarySpringKind _ k' d' =>
         k = k' /\ d = d'
     | _, _ => False
     end).
Proof.
  intros pin spring.
  split.
  { rewrite main_two_runs.
    apply (keeps_loop_two _ input (final (Pinball2Paddles.main [] (start seed)))).
    split; [apply quiet_after_setup_two|]. vm_compute. reflexivity. }
  split.
  { rewrite main_template_runs.
    apply (keeps_loop_template _ input
             (final (PinballTemplate.main [] (start seed)))).
    split; [apply quiet_after_setup_template|]. vm_compute. reflexivity. }
  split.
  { rewrite main_two_runs. apply globals_loop_two. split; reflexivity. }
  split.
  { rewrite main_template_runs. apply globals_loop_template.
    split; reflexivity. }
  split; [intros e w; apply event_writes_two|].
  split; [intros e w; apply event_writes_template|].
  split; [apply skeleton_assign|apply same_but_rest_angle].
Qed.

(** C1.  In a substep in which pymunk finds a ball shape overlapping the
    out-of-bounds segment (a shape of collision type "ball" against one of
    type "boundary", in either order), the handler registered for
    (ball, boundary) is called with the ball as first shape; it hands the
    ball's shape and body to [space.remove] and answers [False].  By the end
    of that substep neither the shape nor the body is in the space, and the
    pair got no bounce.  From then on, whatever calls follow (the rest of the
    frame, later frames with any events, in either script), the shape is not
    in the space and in none of the snapshots [debug_draw] is given.  Every
    frame of either script is such a sequence of calls. *)
Theorem ball_crossing_is_removed {E : Engine} {R : Random}
        (w : World) (dt : number) (s t : Shape) :
  settled w ->
  find_shape (shape_id s) (shapes (space w)) = Some s ->
  find_shape (shape_id t) (shapes (space w)) = Some t ->
  collision_type s = collision_types ball ->
  collision_type t = collision_types boundary ->
  In (shape_id s, shape_id t)
     (overlapping (detection_space (to_float dt) (space w))) \/
  In (shape_id t, shape_id s)
     (overlapping (detection_space (to_float dt) (space w))) ->
  let w1 := final (step_space dt w) in
  let stays_away (handle : event -> M unit) : Prop :=
    forall ops : list Op,
      let w2 := final (for_each ops (perform handle) w1) in
      ~ has_shape (shape_id s) (space w2) /\
      exists new,
        trace w2 = trace w1 ++ new /\
        forall snap, In snap (snapshots new) -> ~ In (shape_id s) (map shape_id snap) in
  find_handler (collision_type s) (collision_type t) (handlers (space w))
  = Some (ball_handler, false) /\
  find_handler (collision_type t) (collision_type s) (handlers (space w))
  = Some (ball_handler, true) /\
  (forall sp,
     call_begin (handler_begin ball_handler) (mkArbiter (s, t)) sp
     = (space_remove [ShapeRef (shape_id s); BodyRef (shape_body s)] sp, false)) /\
  ~ has_shape (shape_id s) (space w1) /\
  ~ has_body (shape_body s) (space w1) /\
  ~ In (shape_id s, shape_id t) (responding (to_float dt) (space w)) /\
  ~ In (shape_id t, shape_id s) (responding (to_float dt) (space w)) /\
  settled w1 /\
  stays_away Pinball2Paddles.handle_event /\
  stays_away PinballTemplate.handle_event /\
  (forall events w0,
     Pinball2Paddles.frame events w0
     = for_each (frame_ops events) (perform Pinball2Paddles.handle_event) w0) /\
  (forall events w0,
     PinballTemplate.frame events w0
     = for_each (frame_ops events) (perform PinballTemplate.handle_event) w0).
Proof.
  intros Hset Hs Ht Hcs Hct Hfound w1 stays_away.
  pose proof (settled_quiet w Hset) as Hq.
  pose proof (@settled_handlers w Hset) as Hh.
  destruct (substep_removes_ball (to_float dt) (space w) s t
              Hq Hh Hs Ht Hcs Hct Hfound) as [R1 [R2 [R3 R4]]].
  assert (Hw1 : settled w1).
  { unfold w1, step_space.
    apply (preserves_bind settled); [settled_same_tac| |exact Hset].
    intros _. apply settled_step. }
  assert (Hgone : gone (shape_id s) (trace w1) w1).
  { apply gone_start; [apply settled_quiet, Hw1| |exact R1].
    destruct (find_shape_In _ _ _ Hs) as [Hin _].
    exact (@settled_ids w Hset s Hin). }
  split; [rewrite Hh, Hcs, Hct; reflexivity|].
  split; [rewrite Hh, Hcs, Hct; reflexivity|].
  split; [intros sp; reflexivity|].
  split; [exact R1|]. split; [exact R2|]. split; [exact R3|].
  split; [exact R4|]. split; [exact Hw1|].
  split.
  { intros ops w2.
    destruct (preserves_for_each (gone (shape_id s) (trace w1)) ops
                (perform Pinball2Paddles.handle_event)
                (fun o => gone_perform _ _ _ o
                            (fun e => gone_event_two _ _ e)) w1 Hgone)
      as [_ [_ [G3 G4]]].
    split; [exact G3|exact G4]. }
  split.
  { intros ops w2.
    destruct (preserves_for_each (gone (shape_id s) (trace w1)) ops
                (perform PinballTemplate.handle_event)
                (fun o => gone_perform _ _ _ o
                            (fun e => gone_event_template _ _ e)) w1 Hgone)
      as [_ [_ [G3 G4]]].
    split; [exact G3|exact G4]. }
  split.
  - intros events w0. rewrite frame_two_paddles. apply frame_is_ops.
  - intros events w0. rewrite frame_template. apply frame_is_ops.
Qed.

Lemma ball_crossing_is_removed_witness :
  has_shape (shape_id falling_ball) (space falling_ball_world) /\
  ~ has_shape (shape_id falling_ball)
      (space (final (@step_space Reference.engine substep_dt falling_ball_world))).
Proof.
  split; [vm_compute; tauto|].
  assert (Hset : settled falling_ball_world).
  { constructor; try (vm_compute; reflexivity).
    intros s. vm_compute.
    intros H. repeat (destruct H as [<-|H]; [cbn; lia|]). destruct H. }
  destruct (@ball_crossing_is_removed Reference.engine lcg falling_ball_world
              substep_dt falling_ball out_of_bounds_shape Hset)
    as [_ [_ [_ [H _]]]]; try (vm_compute; reflexivity).
  - left. vm_compute. left. reflexivity.
  - exact H.
Defined.

(** * Further properties of the scripts *)

(** ** [unit_vector_between] *)

(** X1.  Swapping the two points negates what [unit_vector_between]
    computes in binary64: the call on [(b, a)] raises exactly
    the error the call on [(a, b)] raises; when both return, each component
    of the one compares equal to the negated component of the other, or both
    are NaN.  The components are equal as numbers, not always bit for bit:
    where the points agree in a coordinate both calls return the same zero
    there. *)
Theorem unit_vector_between_swapped (a b : Point) :
  match Pinball2Paddles.unit_vector_between a b,
        Pinball2Paddles.unit_vector_between b a with
  | Returns [ux; uy], Returns [vx; vy] =>
      same_float vx (- ux) = true /\ same_float vy (- uy) = true
  | Raises e, Raises e' => e = e'
  | _, _ => False
  end.
Proof.
  unfold Pinball2Paddles.unit_vector_between. cbn [fst snd].
  rewrite (pow_2_swap (px a) (px b)), (pow_2_swap (py a) (py b)).
  destruct (pow_2 (px a - px b)) as [sx|e]; cbn [and_then]; [|reflexivity].
  destruct (pow_2 (py a - py b)) as [sy|e]; cbn [and_then]; [|reflexivity].
  unfold float_div.
  destruct (pow_half (sx + sy) =? 0)%float; cbn [and_then]; [reflexivity|].
  split; apply swapped_quotient.
Qed.

(** ** The event loop of a frame *)

Lemma set_rest_angle_bound (i : obj_id) (v : number) (w : World) :
  set_rest_angle (Some i) v w
  = Ok tt (mkWorld (assign_rest_angle i v (space w)) (l_spring w) (r_spring w)
                   (next_id w) (rng w) (pygame_alive w)
                   (trace w ++ [call_set_rest_angle i v])).
Proof. reflexivity. Qed.

Lemma quiet_assign (i : obj_id) (v : number) (sp : Space) :
  quiet sp -> quiet (assign_rest_angle i v sp).
Proof. intros [H1 H2 H3]. constructor; assumption. Qed.

(** One event of the two-paddle script, both spring variables bound. *)
Lemma event_two_result {R : Random} (e : event) (w : World) (i j : obj_id) :
  quiet (space w) -> l_spring w = Some j -> r_spring w = Some i ->
  exists w' bs ss,
    Pinball2Paddles.handle_event e w = Ok tt w' /\
    event_loop_result [e] w w' bs ss.
Proof.
  intros Hq Hl Hr.
  assert (Hplain : forall w',
             Pinball2Paddles.handle_event e w = Ok tt w' ->
             spawns e = false ->
             bodies (space w') = bodies (space w) ->
             shapes (space w') = shapes (space w) ->
             next_id w' = next_id w ->
             pygame_alive w' = pygame_alive w && negb (quits e) ->
             l_spring w' = l_spring w -> r_spring w' = r_spring w ->
             quiet (space w') ->
             exists w' bs ss,
               Pinball2Paddles.handle_event e w = Ok tt w' /\
               event_loop_result [e] w w' bs ss).
  { intros w' H1 H2 H3 H4 H5 H6 H7 H8 H9. exists w', [], [].
    split; [exact H1|].
    constructor; cbn [filter forallb List.length map]; rewrite ?H2;
      rewrite ?app_nil_r, ?andb_true_r; cbn [List.length];
      try assumption; try constructor; try lia. }
  destruct e as [|k|k|n]; try destruct k;
    try (eapply Hplain;
         [ unfold Pinball2Paddles.handle_event, bind, ret, get_r_spring,
             get_l_spring, pygame_quit, log, set_pygame_alive;
           cbv beta iota; rewrite ?Hl, ?Hr; rewrite ?set_rest_angle_bound;
           reflexivity
         | reflexivity | reflexivity | reflexivity | reflexivity
         | cbn; rewrite ?andb_true_r, ?andb_false_r; reflexivity
         | cbn; reflexivity | cbn; reflexivity
         | cbn; try apply quiet_assign; exact Hq ]).
  (* KEYDOWN K_SPACE *)
  pose proof (add_ball_computed w) as Hadd. cbv zeta in Hadd.
  match type of Hadd with
  | _ = Ok tt (mkWorld (space_add [BodyItem ?b; ShapeItem ?s] _) _ _ _ _ _ _) =>
      destruct (add_ball_items_quiet b s (space w) Hq)
        as [Q1 [_ [_ [Q4 Q5]]]];
        exists (final (Pinball2Paddles.add_ball w)), [b], [s]
  end.
  split.
  - unfold Pinball2Paddles.handle_event, bind, ret. cbv beta iota.
    rewrite Hadd. reflexivity.
  - rewrite Hadd. cbn [final].
    constructor; cbn [space next_id pygame_alive l_spring r_spring filter
                      spawns forallb quits negb List.length map];
      try assumption; try reflexivity.
    + repeat constructor.
    + repeat constructor.
    + lia.
    + rewrite andb_true_r. reflexivity.
Qed.

Lemma event_loop_result_nil (w : World) :
  quiet (space w) -> event_loop_result [] w w [] [].
Proof.
  intros Hq. constructor; cbn; rewrite ?app_nil_r, ?andb_true_r;
    try reflexivity; try constructor; try lia; apply Hq.
Qed.

Lemma event_loop_result_cons (e : event) (events : list event)
      (w w1 w2 : World) (bs1 bs2 : list Body) (ss1 ss2 : list Shape) :
  event_loop_result [e] w w1 bs1 ss1 ->
  event_loop_result events w1 w2 bs2 ss2 ->
  event_loop_result (e :: events) w w2 (bs1 ++ bs2) (ss1 ++ ss2).
Proof.
  intros [A1 A2 A3 A4 A5 A6 A7 A8 A9 A10 A11 A12]
         [B1 B2 B3 B4 B5 B6 B7 B8 B9 B10 B11 B12].
  cbn [filter forallb List.length] in *.
  constructor.
  - rewrite B1, A1, app_assoc. reflexivity.
  - rewrite B2, A2, app_assoc. reflexivity.
  - rewrite length_app, A3, B3. cbn [filter].
    destruct (spawns e); cbn [List.length]; lia.
  - rewrite length_app, A4, B4. cbn [filter].
    destruct (spawns e); cbn [List.length]; lia.
  - apply Forall_app. split; assumption.
  - apply Forall_app. split; assumption.
  - rewrite !map_app, A7, B7. reflexivity.
  - rewrite B8, A8. cbn [filter].
    destruct (spawns e); cbn [List.length]; lia.
  - rewrite B9, A9. cbn [forallb]. rewrite andb_true_r, andb_assoc. reflexivity.
  - rewrite B10, A10. reflexivity.
  - rewrite B11, A11. reflexivity.
  - exact B12.
Qed.

Lemma event_loop_two {R : Random} (events : list event) (w : World) (i j : obj_id) :
  quiet (space w) -> l_spring w = Some j -> r_spring w = Some i ->
  exists w' bs ss,
    for_each events Pinball2Paddles.handle_event w = Ok tt w' /\
    event_loop_result events w w' bs ss.
Proof.
  revert w. induction events as [|e events IH]; intros w Hq Hl Hr.
  - exists w, [], []. split; [reflexivity|apply event_loop_result_nil, Hq].
  - destruct (event_two_result e w i j Hq Hl Hr) as [w1 [bs1 [ss1 [H1 R1]]]].
    destruct (IH w1) as [w2 [bs2 [ss2 [H2 R2]]]].
    + apply R1.
    + rewrite (loop_l_spring R1). exact Hl.
    + rewrite (loop_r_spring R1). exact Hr.
    + exists w2, (bs1 ++ bs2), (ss1 ++ ss2). split.
      * cbn [for_each]. unfold bind. rewrite H1. exact H2.
      * apply (event_loop_result_cons e events w w1 w2); assumption.
Qed.

(** One event of the template: nothing is spawned. *)
Lemma event_template_result (e : event) (w : World) (i : obj_id) :
  quiet (space w) -> r_spring w = Some i ->
  exists w',
    PinballTemplate.handle_event e w = Ok tt w' /\
    bodies (space w') = bodies (space w) /\
    shapes (space w') = shapes (space w) /\
    next_id w' = next_id w /\
    pygame_alive w' = pygame_alive w && negb (quits e) /\
    l_spring w' = l_spring w /\ r_spring w' = r_spring w /\
    quiet (space w').
Proof.
  intros Hq Hr.
  destruct e as [|k|k|n]; try destruct k;
    (eexists; split;
     [ unfold PinballTemplate.handle_event, bind, ret, get_r_spring,
         pygame_quit, log, set_pygame_alive;
       cbv beta iota; rewrite ?Hr; rewrite ?set_rest_angle_bound; reflexivity
     | cbn; rewrite ?andb_true_r, ?andb_false_r;
       do 6 (split; [reflexivity|]);
       first [exact Hq | apply quiet_assign; exact Hq] ]).
Qed.

Lemma event_loop_template (events : list event) (w : World) (i : obj_id) :
  quiet (space w) -> r_spring w = Some i ->
  exists w',
    for_each events PinballTemplate.handle_event w = Ok tt w' /\
    bodies (space w') = bodies (space w) /\
    shapes (space w') = shapes (space w) /\
    next_id w' = next_id w /\
    pygame_alive w'
    = pygame_alive w && forallb (fun e => negb (quits e)) events /\
    l_spring w' = l_spring w /\ r_spring w' = r_spring w /\
    quiet (space w').
Proof.
  revert w. induction events as [|e events IH]; intros w Hq Hr.
  - exists w. cbn. rewrite andb_true_r.
    do 7 (split; [reflexivity|]). exact Hq.
  - destruct (event_template_result e w i Hq Hr)
      as [w1 [H1 [A1 [A2 [A3 [A4 [A5 [A6 A7]]]]]]]].
    destruct (IH w1 A7) as [w2 [H2 [B1 [B2 [B3 [B4 [B5 [B6 B7]]]]]]]].
    { rewrite A6. exact Hr. }
    exists w2. split.
    { cbn [for_each]. unfold bind. rewrite H1. exact H2. }
    rewrite B1, B2, B3, B4, B5, B6, A1, A2, A3, A4, A5, A6.
    cbn [forallb]. rewrite andb_assoc.
    do 6 (split; [reflexivity|]). exact B7.
Qed.

(** ** How a run ends *)

Lemma quiet_iterate_step {E : Engine} (dt : float) (n : nat) (sp : Space) :
  quiet sp -> quiet (iterate n (space_step dt) sp).
Proof.
  revert sp. induction n as [|n IH]; intros sp Hq; [exact Hq|].
  cbn [iterate]. apply IH. apply (space_step_quiet dt sp Hq).
Qed.

Lemma existsb_quits (f : list event) :
  forallb (fun e => negb (quits e)) f = false -> existsb quits f = true.
Proof.
  induction f as [|e f IH]; cbn; [discriminate|].
  destruct (quits e); cbn; [reflexivity|exact IH].
Qed.

(** The outcome of the main loop for a handler of events that never raises
    in a world with a quiet space and the given spring variables, and shuts
    pygame down on the events that ask to quit. *)
Lemma run_outcome {E : Engine} (handle : event -> M unit) (l r : option obj_id) :
  (forall events w,
     quiet (space w) -> l_spring w = l -> r_spring w = r ->
     exists w1, for_each events handle w = Ok tt w1 /\
                quiet (space w1) /\ l_spring w1 = l /\ r_spring w1 = r /\
                pygame_alive w1
                = pygame_alive w && forallb (fun e => negb (quits e)) events) ->
  forall input w,
    quiet (space w) -> l_spring w = l -> r_spring w = r ->
    pygame_alive w = true ->
    run_ended handle
              (fun i => for_each i (fun ev => for_each ev handle ;; render_and_step))
              input w
              (for_each input (fun ev => for_each ev handle ;; render_and_step) w).
Proof.
  intros Hloop input.
  set (body := fun ev => for_each ev handle ;; render_and_step).
  assert (Hbody : forall f w w1,
             for_each f handle w = Ok tt w1 -> body f w = render_and_step w1).
  { intros f w w1 H. unfold body, bind. rewrite H. reflexivity. }
  induction input as [|f rest IH]; intros w Hq Hl Hr Ha.
  - cbn. split; [reflexivity|exact Ha].
  - destruct (Hloop f w Hq Hl Hr) as [w1 [H1 [Q1 [L1 [R1 A1]]]]].
    rewrite Ha in A1. cbn [andb] in A1.
    cbn [for_each]. unfold bind at 1. rewrite (Hbody f w w1 H1).
    destruct (forallb (fun e => negb (quits e)) f) eqn:Hf.
    + rewrite (render_and_step_alive w1 A1).
      assert (Hq' : quiet (space (stepped w1)))
        by (apply quiet_iterate_step, Q1).
      specialize (IH (stepped w1) Hq' L1 R1 A1).
      unfold run_ended in *.
      destruct (for_each rest body (stepped w1)) as [[] w2|e w2].
      * destruct IH as [I1 I2]. split; [|exact I2].
        unfold quit_free in *. cbn [forallb]. rewrite Hf, I1. reflexivity.
      * destruct IH as [I1 [I0 [pre [f' [post [w0 [J1 [J2 [J3 [J4 J5]]]]]]]]]].
        split; [exact I1|]. split; [exact I0|].
        exists (f :: pre), f', post, w0.
        split; [rewrite J1; reflexivity|].
        split; [unfold quit_free in *; cbn [forallb]; rewrite Hf, J2; reflexivity|].
        split; [exact J3|]. split; [|exact J5].
        cbn [for_each]. unfold bind at 1. rewrite (Hbody f w w1 H1).
        rewrite (render_and_step_alive w1 A1). exact J4.
    + rewrite (render_and_step_dead w1 A1).
      unfold run_ended. split; [reflexivity|]. split; [exact A1|].
      exists [], f, rest, w. split; [reflexivity|]. split; [reflexivity|].
      split; [apply existsb_quits, Hf|]. split; [reflexivity|exact H1].
Qed.

Lemma loop_two_never_raises {R : Random} (events : list event) (w : World) :
  quiet (space w) -> l_spring w = Some 16 -> r_spring w = Some 11 ->
  exists w1, for_each events Pinball2Paddles.handle_event w = Ok tt w1 /\
             quiet (space w1) /\ l_spring w1 = Some 16 /\ r_spring w1 = Some 11 /\
             pygame_alive w1
             = pygame_alive w && forallb (fun e => negb (quits e)) events.
Proof.
  intros Hq Hl Hr.
  destruct (event_loop_two events w 11 16 Hq Hl Hr) as [w1 [bs [ss [H1 R1]]]].
  exists w1. split; [exact H1|]. split; [apply R1|].
  split; [rewrite (loop_l_spring R1); exact Hl|].
  split; [rewrite (loop_r_spring R1); exact Hr|apply R1].
Qed.

Lemma loop_template_never_raises (events : list event) (w : World) :
  quiet (space w) -> l_spring w = None -> r_spring w = Some 11 ->
  exists w1, for_each events PinballTemplate.handle_event w = Ok tt w1 /\
             quiet (space w1) /\ l_spring w1 = None /\ r_spring w1 = Some 11 /\
             pygame_alive w1
             = pygame_alive w && forallb (fun e => negb (quits e)) events.
Proof.
  intros Hq Hl Hr.
  destruct (event_loop_template events w 11 Hq Hr)
    as [w1 [H1 [_ [_ [_ [A [L [Rr Q]]]]]]]].
  exists w1. split; [exact H1|]. split; [exact Q|].
  split; [rewrite L; exact Hl|]. split; [rewrite Rr; exact Hr|exact A].
Qed.

(** X2.  A run of [main] ends in one of two ways only.  It returns from the
    frames it was given when none of their events asks to quit.  Otherwise it
    stops with [pygame.error] in the first frame that holds a [QUIT] or an
    Escape key press: [pygame.quit()] does not leave the event loop, so every
    event of that frame is still handled, those after the request too; then
    [screen.fill] raises, before anything is drawn or stepped, and the later
    frames are never read.  Pygame is alive at the end exactly when the run
    returned.  No run raises [AttributeError] or [ValueError]:
    the springs are bound by setup before the first event is handled.  Both
    scripts. *)
Theorem a_run_ends_on_quit_only {E : Engine} {R : Random}
        (seed : N) (input : list (list event)) :
  run_ended Pinball2Paddles.handle_event Pinball2Paddles.main input (start seed)
            (Pinball2Paddles.main input (start seed)) /\
  run_ended PinballTemplate.handle_event PinballTemplate.main input (start seed)
            (PinballTemplate.main input (start seed)).
Proof.
  split.
  - assert (Hl : l_spring (final (Pinball2Paddles.main [] (start seed))) = Some 16)
      by (vm_compute; reflexivity).
    assert (Hr : r_spring (final (Pinball2Paddles.main [] (start seed))) = Some 11)
      by (vm_compute; reflexivity).
    assert (Ha : pygame_alive (final (Pinball2Paddles.main [] (start seed))) = true)
      by (vm_compute; reflexivity).
    pose proof (run_outcome Pinball2Paddles.handle_event (Some 16) (Some 11)
                  loop_two_never_raises input
                  (final (Pinball2Paddles.main [] (start seed)))
                  (quiet_after_setup_two seed) Hl Hr Ha) as H.
    clear Hl Hr Ha.
    rewrite main_two_runs.
    change (for_each input
              (fun ev => for_each ev Pinball2Paddles.handle_event ;; render_and_step)
              (final (Pinball2Paddles.main [] (start seed))))
      with (Pinball2Paddles.main_loop input
              (final (Pinball2Paddles.main [] (start seed)))) in H.
    unfold run_ended in *.
    destruct (Pinball2Paddles.main_loop input
                (final (Pinball2Paddles.main [] (start seed)))) as [[] w'|e w'];
      [exact H|].
    destruct H as [H1 [H0 [pre [f [post [w0 [J1 [J2 [J3 [J4 J5]]]]]]]]]].
    split; [exact H1|]. split; [exact H0|]. exists pre, f, post, w0.
    split; [exact J1|]. split; [exact J2|]. split; [exact J3|].
    split; [|exact J5].
    rewrite main_two_runs. exact J4.
  - assert (Hl : l_spring (final (PinballTemplate.main [] (start seed))) = None)
      by (vm_compute; reflexivity).
    assert (Hr : r_spring (final (PinballTemplate.main [] (start seed))) = Some 11)
      by (vm_compute; reflexivity).
    assert (Ha : pygame_alive (final (PinballTemplate.main [] (start seed))) = true)
      by (vm_compute; reflexivity).
    pose proof (run_outcome PinballTemplate.handle_event None (Some 11)
                  loop_template_never_raises input
                  (final (PinballTemplate.main [] (start seed)))
                  (quiet_after_setup_template seed) Hl Hr Ha) as H.
    clear Hl Hr Ha.
    rewrite main_template_runs.
    change (for_each input
              (fun ev => for_each ev PinballTemplate.handle_event ;; render_and_step)
              (final (PinballTemplate.main [] (start seed))))
      with (PinballTemplate.main_loop input
              (final (PinballTemplate.main [] (start seed)))) in H.
    unfold run_ended in *.
    destruct (PinballTemplate.main_loop input
                (final (PinballTemplate.main [] (start seed)))) as [[] w'|e w'];
      [exact H|].
    destruct H as [H1 [H0 [pre [f [post [w0 [J1 [J2 [J3 [J4 J5]]]]]]]]]].
    split; [exact H1|]. split; [exact H0|]. exists pre, f, post, w0.
    split; [exact J1|]. split; [exact J2|]. split; [exact J3|].
    split; [|exact J5].
    rewrite main_template_runs. exact J4.
Qed.

(** X3.  In a world whose space is not stepping and whose variable
    [r_spring] is bound: when [l_spring] is bound too, the event loop of the
    two-paddle script handles every event and returns; it adds to the space
    one ball, a body and a circle on it as [add_ball] makes them, per press
    of the space bar, in the order of the presses, and no other body or
    shape, and removes none.  The event loop of the template, which has no
    [l_spring], adds and removes nothing at all. *)
Theorem each_space_press_spawns_a_ball {R : Random}
        (events : list event) (w : World) (i j : obj_id) :
  quiet (space w) -> r_spring w = Some i ->
  (l_spring w = Some j ->
   exists w' new_bodies new_shapes,
     for_each events Pinball2Paddles.handle_event w = Ok tt w' /\
     bodies (space w') = bodies (space w) ++ new_bodies /\
     shapes (space w') = shapes (space w) ++ new_shapes /\
     List.length new_bodies = List.length (filter spawns events) /\
     List.length new_shapes = List.length (filter spawns events) /\
     Forall is_ball_body new_bodies /\
     Forall is_ball_shape new_shapes /\
     map shape_body new_shapes = map body_id new_bodies) /\
  (exists w',
     for_each events PinballTemplate.handle_event w = Ok tt w' /\
     bodies (space w') = bodies (space w) /\
     shapes (space w') = shapes (space w)).
Proof.
  intros Hq Hr. split.
  - intros Hl. destruct (event_loop_two events w i j Hq Hl Hr) as [w' [bs [ss [H1 R1]]]].
    exists w', bs, ss. split; [exact H1|].
    destruct R1 as [A1 A2 A3 A4 A5 A6 A7 _ _ _ _ _].
    split; [exact A1|]. split; [exact A2|]. split; [exact A3|].
    split; [exact A4|]. split; [exact A5|]. split; [exact A6|exact A7].
  - destruct (event_loop_template events w i Hq Hr) as [w' [H1 [A1 [A2 _]]]].
    exists w'. split; [exact H1|]. split; [exact A1|exact A2].
Qed.

Lemma each_space_press_spawns_a_ball_witness :
  (exists w',
     for_each [KEYDOWN K_SPACE; KEYDOWN K_LEFT; QUIT; KEYDOWN K_SPACE]
              (@Pinball2Paddles.handle_event lcg)
              (final (@Pinball2Paddles.main Reference.engine lcg [] (start 42)))
     = Ok tt w' /\
     List.length (bodies (space w')) = 6 /\
     List.length (shapes (space w')) = 10) /\
  (exists w',
     for_each [KEYDOWN K_SPACE; KEYDOWN K_RIGHT; QUIT; KEYDOWN K_SPACE]
              PinballTemplate.handle_event
              (final (@PinballTemplate.main Reference.engine [] (start 42)))
     = Ok tt w' /\
     List.length (bodies (space w')) = 2 /\
     List.length (shapes (space w')) = 7).
Proof.
  split.
  - destruct (@each_space_press_spawns_a_ball lcg
                [KEYDOWN K_SPACE; KEYDOWN K_LEFT; QUIT; KEYDOWN K_SPACE]
                (final (@Pinball2Paddles.main Reference.engine lcg [] (start 42)))
                11 16)
      as [H _].
    + constructor; vm_compute; reflexivity.
    + vm_compute. reflexivity.
    + destruct H as [w' [bs [ss [H1 [H2 [H3 [H4 [H5 _]]]]]]]];
        [vm_compute; reflexivity|].
      exists w'. split; [exact H1|].
      rewrite H2, H3, !length_app, H4, H5. split; vm_compute; reflexivity.
  - destruct (@each_space_press_spawns_a_ball lcg
                [KEYDOWN K_SPACE; KEYDOWN K_RIGHT; QUIT; KEYDOWN K_SPACE]
                (final (@PinballTemplate.main Reference.engine [] (start 42)))
                11 0)
      as [_ [w' [H1 [H2 H3]]]].
    + constructor; vm_compute; reflexivity.
    + vm_compute. reflexivity.
    + exists w'. split; [exact H1|].
      rewrite H2, H3. split; vm_compute; reflexivity.
Defined.

(** ** The rest angles follow the keys *)

Lemma assign_two_paddles (cs : list Constraint) (v1 v2 : number) :
  map without_rest_angle cs = two_paddle_constraints (Int 0) (Int 0) ->
  map (fun c => if Nat.eqb (constraint_id c) 16 then with_rest_angle v2 c else c)
      (map (fun c => if Nat.eqb (constraint_id c) 11 then with_rest_angle v1 c
                     else c) cs)
  = two_paddle_constraints v1 v2.
Proof.
  intros H.
  destruct cs as [|c1 [|c2 [|c3 [|c4 [|c5 cs]]]]]; try discriminate H.
  destruct c1 as [i1 a1 b1 [p1 q1|r1 k1 d1]], c2 as [i2 a2 b2 [p2 q2|r2 k2 d2]],
    c3 as [i3 a3 b3 [p3 q3|r3 k3 d3]], c4 as [i4 a4 b4 [p4 q4|r4 k4 d4]];
    try discriminate H.
  unfold two_paddle_constraints, pin_joint, rotary_spring in H.
  cbn in H. inversion H. subst. reflexivity.
Qed.

Lemma assign_template (cs : list Constraint) (v1 : number) :
  map without_rest_angle cs = template_constraints (Int 0) ->
  map (fun c => if Nat.eqb (constraint_id c) 11 then with_rest_angle v1 c else c) cs
  = template_constraints v1.
Proof.
  intros H.
  destruct cs as [|c1 [|c2 [|c3 cs]]]; try discriminate H.
  destruct c1 as [i1 a1 b1 [p1 q1|r1 k1 d1]], c2 as [i2 a2 b2 [p2 q2|r2 k2 d2]];
    try discriminate H.
  unfold template_constraints, pin_joint, rotary_spring in H.
  cbn in H. inversion H. subst. reflexivity.
Qed.

(** Two events on the two arrow keys, one on each, with both spring
    variables bound: both rest angles are assigned. *)
Lemma both_keys_two {R : Random} (w : World) (down : bool) :
  l_spring w = Some 16 -> r_spring w = Some 11 ->
  let e1 := if down then KEYDOWN K_LEFT else KEYUP K_LEFT in
  let e2 := if down then KEYDOWN K_RIGHT else KEYUP K_RIGHT in
  let v1 := if down then truediv math_pi (Int 4)
            else truediv (neg math_pi) (Int 6) in
  let v2 := if down then truediv (neg math_pi) (Int 4)
            else truediv math_pi (Int 6) in
  space (final (for_each [e1; e2] Pinball2Paddles.handle_event w))
  = assign_rest_angle 16 v2 (assign_rest_angle 11 v1 (space w)).
Proof.
  intros Hl Hr. destruct down; cbv zeta;
    unfold for_each, Pinball2Paddles.handle_event, bind, ret, get_r_spring,
      get_l_spring; cbv beta iota;
    rewrite Hr, set_rest_angle_bound; cbn [l_spring r_spring];
    rewrite Hl, set_rest_angle_bound; reflexivity.
Qed.

Lemma right_key_template (w : World) (down : bool) :
  r_spring w = Some 11 ->
  let e := if down then KEYDOWN K_RIGHT else KEYUP K_RIGHT in
  let v := if down then truediv (neg math_pi) (Int 4)
           else truediv math_pi (Int 6) in
  space (final (for_each [e] PinballTemplate.handle_event w))
  = assign_rest_angle 11 v (space w).
Proof.
  intros Hr. destruct down; cbv zeta;
    unfold for_each, PinballTemplate.handle_event, bind, ret, get_r_spring;
    cbv beta iota; rewrite Hr, set_rest_angle_bound; reflexivity.
Qed.

(** X4.  At any point of any run the constraints are those of setup with the
    rest angles the arrow keys last asked for.  Once the left and right keys
    are both released, the constraints of the space are exactly the ones
    [setup_paddles] built: the angles [main] assigns on release, [-pi/6] and
    [pi/6], are the rest angles the springs were created with.  Once both
    are pressed, the springs rest at [pi/4] and [-pi/4], which are other
    angles.  In the template the same holds of its one spring and the right
    key. *)
Theorem rest_angles_follow_the_keys {E : Engine} {R : Random}
        (seed : N) (input : list (list event)) :
  let pi_6 := truediv math_pi (Int 6) in
  let minus_pi_6 := truediv (neg math_pi) (Int 6) in
  let pi_4 := truediv math_pi (Int 4) in
  let minus_pi_4 := truediv (neg math_pi) (Int 4) in
  let two := final (Pinball2Paddles.main input (start seed)) in
  let template := final (PinballTemplate.main input (start seed)) in
  constraints (space (final (Pinball2Paddles.main [] (start seed))))
  = two_paddle_constraints minus_pi_6 pi_6 /\
  constraints (space (final (for_each [KEYUP K_LEFT; KEYUP K_RIGHT]
                                      Pinball2Paddles.handle_event two)))
  = two_paddle_constraints minus_pi_6 pi_6 /\
  constraints (space (final (for_each [KEYDOWN K_LEFT; KEYDOWN K_RIGHT]
                                      Pinball2Paddles.handle_event two)))
  = two_paddle_constraints pi_4 minus_pi_4 /\
  constraints (space (final (PinballTemplate.main [] (start seed))))
  = template_constraints pi_6 /\
  constraints (space (final (for_each [KEYUP K_RIGHT]
                                      PinballTemplate.handle_event template)))
  = template_constraints pi_6 /\
  constraints (space (final (for_each [KEYDOWN K_RIGHT]
                                      PinballTemplate.handle_event template)))
  = template_constraints minus_pi_4 /\
  PrimFloat.eqb (to_float pi_4) (to_float minus_pi_6) = false /\
  PrimFloat.eqb (to_float minus_pi_4) (to_float pi_6) = false.
Proof.
  intros pi_6 minus_pi_6 pi_4 minus_pi_4 two template.
  assert (K2 : keeps (two_paddle_constraints (Int 0) (Int 0)) two).
  { unfold two. rewrite main_two_runs. apply keeps_loop_two.
    split; [apply quiet_after_setup_two|vm_compute; reflexivity]. }
  assert (G2 : globals_are (Some 16) (Some 11) two).
  { unfold two. rewrite main_two_runs. apply globals_loop_two.
    split; vm_compute; reflexivity. }
  assert (K1 : keeps (template_constraints (Int 0)) template).
  { unfold template. rewrite main_template_runs. apply keeps_loop_template.
    split; [apply quiet_after_setup_template|vm_compute; reflexivity]. }
  assert (G1 : globals_are None (Some 11) template).
  { unfold template. rewrite main_template_runs. apply globals_loop_template.
    split; vm_compute; reflexivity. }
  destruct K2 as [_ K2], G2 as [G2l G2r], K1 as [_ K1], G1 as [_ G1r].
  split; [vm_compute; reflexivity|].
  split.
  { rewrite (both_keys_two two false G2l G2r).
    apply (assign_two_paddles _ _ _ K2). }
  split.
  { rewrite (both_keys_two two true G2l G2r).
    apply (assign_two_paddles _ _ _ K2). }
  split; [vm_compute; reflexivity|].
  split.
  { rewrite (right_key_template template false G1r).
    apply (assign_template _ _ K1). }
  split.
  { rewrite (right_key_template template true G1r).
    apply (assign_template _ _ K1). }
  split; vm_compute; reflexivity.
Qed.

(** ** What a substep removes, and only that *)

Lemma removes_shape_In (refs : list ItemRef) (i : obj_id) :
  removes_shape refs i = true <-> In (ShapeRef i) refs.
Proof.
  unfold removes_shape. rewrite existsb_exists. split.
  - intros [r [Hr H]]. destruct r as [j|j|j]; try discriminate.
    apply Nat.eqb_eq in H. subst j. exact Hr.
  - intros H. exists (ShapeRef i). split; [exact H|apply Nat.eqb_refl].
Qed.

Lemma removes_body_In (refs : list ItemRef) (i : obj_id) :
  removes_body refs i = true <-> In (BodyRef i) refs.
Proof.
  unfold removes_body. rewrite existsb_exists. split.
  - intros [r [Hr H]]. destruct r as [j|j|j]; try discriminate.
    apply Nat.eqb_eq in H. subst j. exact Hr.
  - intros H. exists (BodyRef i). split; [exact H|apply Nat.eqb_refl].
Qed.

Lemma types_eqb_eq (p q : Z * Z) : types_eqb p q = true -> p = q.
Proof.
  destruct p as [a b], q as [c d]. unfold types_eqb. cbn [fst snd].
  intros H. apply andb_prop in H. destruct H as [H1 H2].
  apply Z.eqb_eq in H1, H2. subst. reflexivity.
Qed.

(** What a pair asks to remove is a shape of type "ball" of the space, found
    with a shape of type "boundary", and the body of that shape. *)
Lemma removals_of_pair (sp : Space) (p : obj_id * obj_id) (r : ItemRef) :
  handlers sp = [ball_handler] ->
  In r (removals_of sp p) ->
  exists x y,
    In x (shapes sp) /\ In y (shapes sp) /\
    collision_type x = collision_types ball /\
    collision_type y = collision_types boundary /\
    (p = (shape_id x, shape_id y) \/ p = (shape_id y, shape_id x)) /\
    removals_of sp p = [ShapeRef (shape_id x); BodyRef (shape_body x)].
Proof.
  intros Hh. unfold removals_of, pair_verdict. destruct p as [i j].
  cbn [fst snd].
  destruct (find_shape i (shapes sp)) as [s|] eqn:Hs; [|intros []].
  destruct (find_shape j (shapes sp)) as [t|] eqn:Ht; [|intros []].
  destruct (find_shape_In _ _ _ Hs) as [Hsin Hsid].
  destruct (find_shape_In _ _ _ Ht) as [Htin Htid].
  rewrite Hh. unfold find_handler, ball_handler. cbn [handler_types handler_begin].
  destruct (types_eqb _ (collision_type s, collision_type t)) eqn:H1.
  - intros _. apply types_eqb_eq in H1. inversion H1.
    exists s, t. subst i j. repeat split; auto.
  - destruct (types_eqb _ (collision_type t, collision_type s)) eqn:H2;
      [|intros []].
    intros _. apply types_eqb_eq in H2. inversion H2.
    exists t, s. subst i j. repeat split; auto.
Qed.

Lemma distinct_ids (l : list Shape) (x y : Shape) :
  NoDup (map shape_id l) -> In x l -> In y l -> shape_id x = shape_id y -> x = y.
Proof.
  induction l as [|a l IH]; cbn; [intros _ []|].
  intros Hnd Hx Hy Hid. inversion Hnd as [|? ? Hnot Hnd']. subst.
  destruct Hx as [<-|Hx], Hy as [<-|Hy].
  - reflexivity.
  - exfalso. apply Hnot. rewrite Hid. apply in_map, Hy.
  - exfalso. apply Hnot. rewrite <- Hid. apply in_map, Hx.
  - apply IH; assumption.
Qed.

Lemma NoDup_map_filter {A B : Type} (g : A -> B) (f : A -> bool) (l : list A) :
  NoDup (map g l) -> NoDup (map g (filter f l)).
Proof.
  induction l as [|a l IH]; cbn; [intros H; exact H|].
  intros H. inversion H as [|? ? Hnot Hnd]. subst.
  destruct (f a); cbn; [constructor|]; try (apply IH, Hnd).
  intros Hin. apply Hnot. apply in_map_iff in Hin.
  destruct Hin as [x [Hx Hin]]. apply filter_In in Hin.
  apply in_map_iff. exists x. tauto.
Qed.

Lemma NoDup_snoc {A : Type} (l : list A) (x : A) :
  NoDup l -> ~ In x l -> NoDup (l ++ [x]).
Proof.
  induction l as [|a l IH]; cbn; intros Hnd Hx.
  - constructor; [intros []|constructor].
  - inversion Hnd as [|? ? Hnot Hnd']. subst. constructor.
    + rewrite in_app_iff. cbn. intros [H|[H|[]]]; [exact (Hnot H)|].
      apply Hx. left. symmetry. exact H.
    + apply IH; [exact Hnd'|]. intros H. apply Hx. right. exact H.
Qed.

(** The removals of a substep, read on the space it starts from. *)
Lemma substep_removal (E : Engine) (dt : float) (sp : Space) (r : ItemRef) :
  handlers sp = [ball_handler] ->
  In r (substep_removals dt sp) ->
  exists x y,
    In x (shapes sp) /\ In y (shapes sp) /\
    collision_type x = collision_types ball /\
    collision_type y = collision_types boundary /\
    (In (shape_id x, shape_id y) (overlapping (detection_space dt sp)) \/
     In (shape_id y, shape_id x) (overlapping (detection_space dt sp))) /\
    (r = ShapeRef (shape_id x) \/ r = BodyRef (shape_body x)) /\
    In (ShapeRef (shape_id x)) (substep_removals dt sp) /\
    In (BodyRef (shape_body x)) (substep_removals dt sp).
Proof.
  intros Hh Hr. unfold substep_removals in *. apply in_flat_map in Hr.
  destruct Hr as [p [Hp Hr]].
  destruct (removals_of_pair (detection_space dt sp) p r Hh Hr)
    as [x [y [Hx [Hy [Hcx [Hcy [Hpair Hrefs]]]]]]].
  exists x, y. split; [exact Hx|]. split; [exact Hy|].
  split; [exact Hcx|]. split; [exact Hcy|]. split.
  { destruct Hpair as [<-| <-]; [left|right]; exact Hp. }
  split.
  { rewrite Hrefs in Hr. destruct Hr as [<-|[<-|[]]]; auto. }
  split; apply in_flat_map; exists p; (split; [exact Hp|]); rewrite Hrefs.
  - left. reflexivity.
  - right. left. reflexivity.
Qed.

(** ** The order a run keeps in the space *)

Lemma tidy_mono (scene : list Shape) (spawned : Shape -> Prop) (sp : Space) (n n' : obj_id) :
  n <= n' -> tidy scene spawned sp n -> tidy scene spawned sp n'.
Proof.
  intros Hn [T1 T2 T3 T4 T5 T6 T7 T8 T9 T10 T11].
  constructor; try assumption.
  - intros s Hs. specialize (T6 s Hs). lia.
  - intros i Hi. specialize (T7 i Hi). lia.
Qed.

Lemma tidy_assign (scene : list Shape) (spawned : Shape -> Prop) (sp : Space) (n : obj_id) (j : obj_id)
      (v : number) :
  tidy scene spawned sp n -> tidy scene spawned (assign_rest_angle j v sp) n.
Proof.
  intros [T1 T2 T3 T4 T5 T6 T7 T8 T9 T10 T11]. constructor; try assumption.
  destruct T1 as [Q1 Q2 Q3]. constructor; assumption.
Qed.

Lemma add_ball_items_globals (b : Body) (s : Shape) (sp : Space) :
  quiet sp ->
  gravity (space_add [BodyItem b; ShapeItem s] sp) = gravity sp /\
  static_body (space_add [BodyItem b; ShapeItem s] sp) = static_body sp.
Proof.
  intros [Hl Ha Hr]. rewrite (space_add_unlocked _ _ Hl). cbn.
  split; reflexivity.
Qed.

Lemma tidy_add_ball (scene : list Shape) (spawned : Shape -> Prop) (sp : Space) (n : obj_id) (b : Body)
      (s : Shape) :
  body_id b = n -> shape_body s = n -> shape_id s = S n -> spawned s ->
  tidy scene spawned sp n ->
  tidy scene spawned (space_add [BodyItem b; ShapeItem s] sp) (S (S n)).
Proof.
  intros Hb Hsb Hid Hball [T1 T2 T3 T4 T5 T6 T7 T8 T9 T10 T11].
  destruct (add_ball_items_quiet b s sp T1) as [Q [_ [Hh [Hs Hbs]]]].
  destruct (add_ball_items_globals b s sp T1) as [Hg Hst].
  constructor.
  - exact Q.
  - rewrite Hh. exact T2.
  - rewrite Hg. exact T3.
  - rewrite Hst. exact T4.
  - rewrite Hs, map_app. cbn [map]. apply NoDup_snoc; [exact T5|].
    intros Hin. apply in_map_iff in Hin. destruct Hin as [x [Hx Hin]].
    specialize (T6 x Hin). lia.
  - intros x Hin. rewrite Hs in Hin. apply in_app_or in Hin.
    destruct Hin as [Hin|[<-|[]]]; [specialize (T6 x Hin)|]; lia.
  - intros i Hin. rewrite Hbs, map_app in Hin. apply in_app_or in Hin.
    destruct Hin as [Hin|[<-|[]]]; [specialize (T7 i Hin)|]; lia.
  - intros x Hin. rewrite Hs in Hin. apply in_app_or in Hin.
    destruct Hin as [Hin|[<-|[]]]; [exact (T8 x Hin)|right; exact Hball].
  - intros x Hx Hc. rewrite Hs. apply in_or_app. left. exact (T9 x Hx Hc).
  - intros x y Hx Hy Hxy. rewrite Hs in Hx, Hy. rewrite Hst.
    apply in_app_or in Hx. apply in_app_or in Hy.
    destruct Hx as [Hx|[<-|[]]]; destruct Hy as [Hy|[<-|[]]].
    + exact (T10 x y Hx Hy Hxy).
    + specialize (T6 x Hx). lia.
    + specialize (T6 y Hy). lia.
    + left. reflexivity.
  - intros x Hin. rewrite Hs in Hin. rewrite Hst, Hbs, map_app.
    apply in_app_or in Hin. destruct Hin as [Hin|[<-|[]]].
    + destruct (T11 x Hin) as [H|H]; [left; exact H|].
      right. apply in_or_app. left. exact H.
    + right. apply in_or_app. right. left. lia.
Qed.

Lemma tidy_step {E : Engine} (scene : list Shape) (spawned : Shape -> Prop) (sp : Space) (n : obj_id)
      (dt : float) :
  tidy scene spawned sp n -> tidy scene spawned (space_step dt sp) n.
Proof.
  intros [T1 T2 T3 T4 T5 T6 T7 T8 T9 T10 T11].
  destruct (space_step_quiet dt sp T1) as [Q [Hg [Hst [Hh [_ [Hs Hb]]]]]].
  constructor.
  - exact Q.
  - rewrite Hh. exact T2.
  - rewrite Hg. exact T3.
  - rewrite Hst. exact T4.
  - rewrite Hs. apply NoDup_map_filter. exact T5.
  - intros x Hin. rewrite Hs in Hin. apply filter_In in Hin. apply T6, Hin.
  - intros i Hin. apply Hb in Hin. apply T7, Hin.
  - intros x Hin. rewrite Hs in Hin. apply filter_In in Hin. apply T8, Hin.
  - intros x Hx Hc. rewrite Hs. apply filter_In. split; [exact (T9 x Hx Hc)|].
    destruct (removes_shape (substep_removals dt sp) (shape_id x)) eqn:Hr;
      [|reflexivity].
    exfalso. apply removes_shape_In in Hr.
    destruct (substep_removal E dt sp _ T2 Hr)
      as [y [_ [Hy [_ [Hcy [_ [_ [Hry _]]]]]]]].
    destruct Hry as [Hry|Hry]; [|discriminate]. inversion Hry as [Hid].
    pose proof (distinct_ids _ x y T5 (T9 x Hx Hc) Hy Hid) as Hxy. subst y.
    rewrite Hc in Hcy. discriminate.
  - intros x y Hx Hy Hxy. rewrite Hs in Hx, Hy. rewrite Hst.
    apply filter_In in Hx. apply filter_In in Hy.
    apply T10; tauto.
  - intros x Hin. rewrite Hs in Hin. apply filter_In in Hin.
    destruct Hin as [Hin Hkept]. rewrite Hst.
    destruct (T11 x Hin) as [H|H]; [left; exact H|].
    destruct (removes_body (substep_removals dt sp) (shape_body x)) eqn:Hr.
    + apply removes_body_In in Hr.
      destruct (substep_removal E dt sp _ T2 Hr)
        as [y [_ [Hy [_ [_ [_ [_ [Hry [Hgone _]]]]]]]]].
      destruct Hry as [Hry|Hry]; [discriminate|]. inversion Hry as [Hbody].
      destruct (T10 x y Hin Hy Hbody) as [Hxy|Hstatic].
      * subst y. apply removes_shape_In in Hgone. rewrite Hgone in Hkept.
        discriminate.
      * left. exact Hstatic.
    + right. apply Hb. split; [exact H|exact Hr].
Qed.

(** A shape that a substep removes has the collision type "ball" and was
    found overlapping a shape of type "boundary"; its body goes with it;
    every other shape stays. *)
Lemma tidy_kept_or_drained {E : Engine} (scene : list Shape)
      (spawned : Shape -> Prop) (sp : Space) (n : obj_id) (dt : float)
      (s : Shape) :
  tidy scene spawned sp n -> In s (shapes sp) -> kept_or_drained dt sp s.
Proof.
  intros [T1 T2 T3 T4 T5 T6 T7 T8 T9 T10 T11] Hin.
  destruct (space_step_quiet dt sp T1) as [_ [_ [_ [_ [_ [Hs Hb]]]]]].
  unfold kept_or_drained. rewrite Hs.
  destruct (removes_shape (substep_removals dt sp) (shape_id s)) eqn:Hr.
  - right. apply removes_shape_In in Hr.
    destruct (substep_removal E dt sp _ T2 Hr)
      as [x [t [Hx [Ht [Hcx [Hct [Hp [Hrx [_ Hbody]]]]]]]]].
    destruct Hrx as [Hrx|Hrx]; [|discriminate]. inversion Hrx as [Hid].
    pose proof (distinct_ids _ s x T5 Hin Hx Hid) as Hsx. subst x.
    split; [exact Hcx|]. split.
    + intros H. apply Hb in H. destruct H as [_ H].
      apply removes_body_In in Hbody. rewrite Hbody in H. discriminate.
    + exists t. auto.
  - left. apply filter_In. split; [exact Hin|]. rewrite Hr. reflexivity.
Qed.

(** ** The order holds between any two calls of a run *)

Section Orderly.

Variable scene : list Shape.
Variable spawned : Shape -> Prop.

Lemma orderly_same (w w' : World) :
  space w' = space w -> next_id w <= next_id w' ->
  orderly scene spawned w -> orderly scene spawned w'.
Proof.
  unfold orderly. intros H1 H2 H. rewrite H1.
  exact (tidy_mono scene spawned (space w) _ _ H2 H).
Qed.

Lemma orderly_fill : preserves (orderly scene spawned) screen_fill.
Proof.
  intros w H. unfold screen_fill. destruct (pygame_alive w); [|exact H].
  apply (orderly_same w); [reflexivity|cbn; lia|exact H].
Qed.

Lemma orderly_assign (j : obj_id) (v : number) :
  preserves (orderly scene spawned) (modify_space (assign_rest_angle j v)).
Proof. intros w H. exact (tidy_assign scene spawned (space w) _ j v H). Qed.

Lemma orderly_step {E : Engine} (dt : float) :
  preserves (orderly scene spawned) (modify_space (space_step dt)).
Proof. intros w H. exact (tidy_step scene spawned (space w) _ dt H). Qed.

Lemma orderly_add_ball {R : Random} :
  (forall s, is_ball_shape s -> spawned s) ->
  preserves (orderly scene spawned) Pinball2Paddles.add_ball.
Proof.
  intros Hball w H. rewrite add_ball_computed. cbv zeta.
  unfold orderly. cbn [final space next_id].
  apply tidy_add_ball; try reflexivity; [|exact H].
  apply Hball. repeat split.
Qed.

End Orderly.

Ltac orderly_same_tac :=
  let w := fresh "w" in
  let H := fresh "H" in
  intros w H; apply (orderly_same _ _ w); [| |exact H];
  cbn; try reflexivity; try lia.

Ltac orderly_leaf :=
  first [ match goal with
          | |- preserves _ screen_fill => apply orderly_fill
          | |- preserves _ (modify_space (assign_rest_angle _ _)) =>
              apply orderly_assign
          | |- preserves _ (modify_space (space_step _)) => apply orderly_step
          | |- preserves _ (modify_space _) => fail 2
          end
        | solve [orderly_same_tac] ].

Lemma orderly_set_rest_angle (scene : list Shape) (spawned : Shape -> Prop)
      (g : option obj_id) (v : number) :
  preserves (orderly scene spawned) (set_rest_angle g v).
Proof. destruct g; cbn [set_rest_angle]; pres_with orderly_leaf. Qed.

Lemma orderly_event_two {R : Random} (scene : list Shape) (e : event) :
  preserves (orderly scene is_ball_shape) (Pinball2Paddles.handle_event e).
Proof.
  unfold Pinball2Paddles.handle_event, pygame_quit.
  pres_with ltac:(first [ apply orderly_set_rest_angle
                        | apply orderly_add_ball; intros ? H; exact H
                        | orderly_leaf ]).
Qed.

Lemma orderly_event_template (scene : list Shape) (spawned : Shape -> Prop)
      (e : event) :
  preserves (orderly scene spawned) (PinballTemplate.handle_event e).
Proof.
  unfold PinballTemplate.handle_event, pygame_quit.
  pres_with ltac:(first [apply orderly_set_rest_angle | orderly_leaf]).
Qed.

Lemma orderly_render_and_step {E : Engine} (scene : list Shape)
      (spawned : Shape -> Prop) :
  preserves (orderly scene spawned) render_and_step.
Proof.
  unfold render_and_step, step_space, display_flip, clock_tick, debug_draw.
  pres_with orderly_leaf.
Qed.

Lemma orderly_run_two {E : Engine} {R : Random} (scene : list Shape)
      (input : list (list event)) :
  preserves (orderly scene is_ball_shape) (Pinball2Paddles.main_loop input).
Proof.
  unfold Pinball2Paddles.main_loop. apply preserves_for_each. intros events.
  intros w H. rewrite frame_two_paddles. revert w H.
  apply preserves_bind; [|intros _; apply orderly_render_and_step].
  apply preserves_for_each. intros e. apply orderly_event_two.
Qed.

Lemma orderly_run_template {E : Engine} (scene : list Shape)
      (spawned : Shape -> Prop) (input : list (list event)) :
  preserves (orderly scene spawned) (PinballTemplate.main_loop input).
Proof.
  unfold PinballTemplate.main_loop. apply preserves_for_each. intros events.
  intros w H. rewrite frame_template. revert w H.
  apply preserves_bind; [|intros _; apply orderly_render_and_step].
  apply preserves_for_each. intros e. apply orderly_event_template.
Qed.

(** ** The space that setup leaves is in order *)

Lemma tidy_scene (scene : list Shape) (spawned : Shape -> Prop) (sp : Space)
      (n : obj_id) :
  shapes sp = scene ->
  quiet sp -> handlers sp = [ball_handler] -> gravity sp = vec 0 (-900) ->
  static_body sp = static_body empty_space ->
  NoDup (map shape_id scene) ->
  forallb (fun s => Nat.ltb (shape_id s) n && Nat.ltb (shape_body s) n) scene
  = true ->
  forallb (fun i => Nat.ltb i n) (map body_id (bodies sp)) = true ->
  forallb (fun s => Nat.eqb (shape_body s) 0
                    || (existsb (Nat.eqb (shape_body s)) (map body_id (bodies sp))
                        && Nat.eqb
                             (List.length
                                (filter (fun t => Nat.eqb (shape_body t) (shape_body s))
                                        scene)) 1))
          scene = true ->
  tidy scene spawned sp n.
Proof.
  intros Hs Hq Hh Hg Hst Hnd Hids Hbids Hatt.
  rewrite forallb_forall in Hids, Hbids, Hatt.
  assert (Hzero : body_id (static_body sp) = 0) by (rewrite Hst; reflexivity).
  constructor; try assumption; rewrite ?Hs.
  - exact Hnd.
  - intros s Hin. specialize (Hids s Hin). apply andb_prop in Hids.
    destruct Hids as [H1 H2]. apply Nat.ltb_lt in H1, H2. split; assumption.
  - intros i Hin. apply Nat.ltb_lt. apply Hbids, Hin.
  - intros s Hin. left. exact Hin.
  - intros s Hin _. exact Hin.
  - intros s1 s2 H1 H2 Hb. rewrite Hzero.
    pose proof (Hatt s1 H1) as Ha. apply orb_prop in Ha.
    destruct Ha as [Ha|Ha]; [right; apply Nat.eqb_eq, Ha|].
    left. apply andb_prop in Ha. destruct Ha as [_ Ha]. apply Nat.eqb_eq in Ha.
    revert H1 H2 Ha. generalize scene. clear - Hb. intros l.
    induction l as [|a l IH]; cbn [In filter]; [intros []|].
    intros H1 H2.
    assert (Hfil : forall x, In x l -> shape_body x = shape_body s1 ->
                     1 <= List.length
                            (filter (fun t => Nat.eqb (shape_body t) (shape_body s1)) l)).
    { intros x Hx Hbx.
      assert (Hin : In x (filter (fun t => Nat.eqb (shape_body t) (shape_body s1)) l))
        by (apply filter_In; split; [exact Hx|apply Nat.eqb_eq, Hbx]).
      destruct (filter _ l); [destruct Hin|cbn; lia]. }
    destruct (Nat.eqb (shape_body a) (shape_body s1)) eqn:Hab.
    + cbn [List.length]. intros Hlen.
      destruct H1 as [<-|H1]; destruct H2 as [<-|H2].
      * reflexivity.
      * specialize (Hfil s2 H2 (eq_sym Hb)). lia.
      * specialize (Hfil s1 H1 eq_refl). lia.
      * specialize (Hfil s1 H1 eq_refl). lia.
    + intros Hlen.
      destruct H1 as [<-|H1]; [rewrite Nat.eqb_refl in Hab; discriminate|].
      destruct H2 as [<-|H2];
        [rewrite <- Hb, Nat.eqb_refl in Hab; discriminate|].
      exact (IH H1 H2 Hlen).
  - intros s Hin. rewrite Hzero. specialize (Hatt s Hin).
    apply orb_prop in Hatt. destruct Hatt as [Ha|Ha]; [left; apply Nat.eqb_eq, Ha|].
    right. apply andb_prop in Ha. destruct Ha as [Ha _].
    apply existsb_exists in Ha. destruct Ha as [i [Hi Hi']].
    apply Nat.eqb_eq in Hi'. rewrite Hi'. exact Hi.
Qed.

Lemma NoDup_decided (l : list nat) :
  (fix distinct (l : list nat) : bool :=
     match l with
     | [] => true
     | x :: l' => negb (existsb (Nat.eqb x) l') && distinct l'
     end) l = true -> NoDup l.
Proof.
  induction l as [|x l IH]; [constructor|].
  intros H. apply andb_prop in H. destruct H as [H1 H2]. constructor.
  - intros Hin. apply negb_true_iff in H1.
    assert (H : existsb (Nat.eqb x) l = true)
      by (apply existsb_exists; exists x; split; [exact Hin|apply Nat.eqb_refl]).
    rewrite H in H1. discriminate.
  - apply IH, H2.
Qed.

Lemma orderly_after_setup_two {E : Engine} {R : Random} (seed : N)
      (spawned : Shape -> Prop) :
  orderly (shapes (space (final (Pinball2Paddles.main [] (start seed))))) spawned
          (final (Pinball2Paddles.main [] (start seed))).
Proof.
  apply tidy_scene; try (vm_compute; reflexivity).
  - constructor; vm_compute; reflexivity.
  - apply NoDup_decided. vm_compute. reflexivity.
Qed.

Lemma orderly_after_setup_template {E : Engine} (seed : N)
      (spawned : Shape -> Prop) :
  orderly (shapes (space (final (PinballTemplate.main [] (start seed))))) spawned
          (final (PinballTemplate.main [] (start seed))).
Proof.
  apply tidy_scene; try (vm_compute; reflexivity).
  - constructor; vm_compute; reflexivity.
  - apply NoDup_decided. vm_compute. reflexivity.
Qed.

(** ** What every run keeps *)

Lemma orderly_two {E : Engine} {R : Random} (seed : N)
      (input : list (list event)) :
  orderly (shapes (space (final (Pinball2Paddles.main [] (start seed)))))
          is_ball_shape
          (final (Pinball2Paddles.main input (start seed))).
Proof.
  rewrite (main_two_runs input).
  pose proof (orderly_after_setup_two seed is_ball_shape) as H0.
  revert H0. generalize (final (Pinball2Paddles.main [] (start seed))).
  intros w0 H0. exact (orderly_run_two (shapes (space w0)) input w0 H0).
Qed.

Lemma orderly_template {E : Engine} (seed : N) (input : list (list event)) :
  orderly (shapes (space (final (PinballTemplate.main [] (start seed)))))
          (fun _ => False)
          (final (PinballTemplate.main input (start seed))).
Proof.
  rewrite (main_template_runs input).
  pose proof (orderly_after_setup_template seed (fun _ => False)) as H0.
  revert H0. generalize (final (PinballTemplate.main [] (start seed))).
  intros w0 H0. exact (orderly_run_template (shapes (space w0)) _ input w0 H0).
Qed.

(** X5 (src/pinball_2_paddles.py and src/pinball_template.py,
    [setup_boundaries], [remove_ball], [main]): whatever the events of a run
    and however it ends, the space still holds the out-of-bounds segment that
    [setup_boundaries] added, the handler of the pair (ball, boundary) with
    [remove_ball] as its [begin] is still the only one, the gravity is still
    (0, -900) and the static body is the one of the start: a substep removes
    balls, never what removes them. *)
Theorem the_drain_outlasts_the_run {E : Engine} {R : Random} (seed : N)
        (input : list (list event)) :
  let two := space (final (Pinball2Paddles.main input (start seed))) in
  let template := space (final (PinballTemplate.main input (start seed))) in
  (In out_of_bounds_segment (shapes two) /\
   handlers two = [ball_handler] /\
   gravity two = vec 0 (-900) /\
   static_body two = static_body empty_space) /\
  (In out_of_bounds_segment (shapes template) /\
   handlers template = [ball_handler] /\
   gravity template = vec 0 (-900) /\
   static_body template = static_body empty_space).
Proof.
  cbv zeta.
  assert (H2 : In out_of_bounds_segment
                  (shapes (space (final (Pinball2Paddles.main [] (start seed))))))
    by (vm_compute; tauto).
  assert (Ht : In out_of_bounds_segment
                  (shapes (space (final (PinballTemplate.main [] (start seed))))))
    by (vm_compute; tauto).
  pose proof (orderly_two seed input) as T2.
  pose proof (orderly_template seed input) as Tt.
  split.
  - split; [exact (tidy_boundary T2 out_of_bounds_segment H2 eq_refl)|].
    split; [exact (tidy_handlers T2)|].
    split; [exact (tidy_gravity T2)|exact (tidy_static T2)].
  - split; [exact (tidy_boundary Tt out_of_bounds_segment Ht eq_refl)|].
    split; [exact (tidy_handlers Tt)|].
    split; [exact (tidy_gravity Tt)|exact (tidy_static Tt)].
Qed.

(** X6 (src/pinball_2_paddles.py, [setup_boundaries], [setup_paddles],
    [add_ball], [main]; src/pinball_template.py, the same without
    [add_ball]): at the end of any run the shapes of the space are distinct
    objects; each is a shape that setup added or, in the two-paddle script, a
    ball as [add_ball] makes it (a circle of radius 13, elasticity 0.4,
    tagged "ball", created right after its body); each is attached to the
    static body or to a body that is in the space: removing a ball removes
    its shape and its body together, and nothing else ever leaves a shape
    without its body.  The template never holds a shape that setup did not
    add. *)
Theorem every_shape_is_accounted_for {E : Engine} {R : Random} (seed : N)
        (input : list (list event)) :
  let two := space (final (Pinball2Paddles.main input (start seed))) in
  let template := space (final (PinballTemplate.main input (start seed))) in
  (NoDup (map shape_id (shapes two)) /\
   Forall (fun s =>
             (In s (shapes (space (final (Pinball2Paddles.main [] (start seed)))))
              \/ is_ball_shape s) /\
             attached two s)
          (shapes two)) /\
  (NoDup (map shape_id (shapes template)) /\
   Forall (fun s =>
             In s (shapes (space (final (PinballTemplate.main [] (start seed)))))
             /\ attached template s)
          (shapes template)).
Proof.
  cbv zeta.
  pose proof (orderly_two seed input) as T2.
  pose proof (orderly_template seed input) as Tt.
  split.
  - split; [exact (tidy_distinct T2)|]. apply Forall_forall. intros s Hs.
    split; [exact (tidy_inventory T2 s Hs)|exact (tidy_attached T2 s Hs)].
  - split; [exact (tidy_distinct Tt)|]. apply Forall_forall. intros s Hs.
    split; [|exact (tidy_attached Tt s Hs)].
    destruct (tidy_inventory Tt s Hs) as [H|[]]. exact H.
Qed.

(** X7 (src/pinball_2_paddles.py and src/pinball_template.py,
    [setup_boundaries], [remove_ball], the substeps of [main]): in the state
    any run has reached, a substep of any length keeps every shape of the
    space, except shapes that carry the collision type of balls and are found
    overlapping a shape tagged "boundary"; such a shape leaves with its body.
    This is the converse of the removal of a ball that crosses the
    out-of-bounds segment: nothing else is ever removed. *)
Theorem a_substep_removes_drained_balls_only {E : Engine} {R : Random}
        (seed : N) (input : list (list event)) (dt : float) :
  let two := space (final (Pinball2Paddles.main input (start seed))) in
  let template := space (final (PinballTemplate.main input (start seed))) in
  Forall (kept_or_drained dt two) (shapes two) /\
  Forall (kept_or_drained dt template) (shapes template).
Proof.
  cbv zeta.
  pose proof (orderly_two seed input) as T2.
  pose proof (orderly_template seed input) as Tt.
  split; apply Forall_forall; intros s Hs.
  - exact (tidy_kept_or_drained _ _ _ _ dt s T2 Hs).
  - exact (tidy_kept_or_drained _ _ _ _ dt s Tt Hs).
Qed.

(** ** Balls in play and presses of the space bar *)

Lemma filter_shorter {A : Type} (f : A -> bool) (l : list A) :
  List.length (filter f l) <= List.length l.
Proof.
  induction l as [|a l IH]; cbn; [lia|]. destruct (f a); cbn; lia.
Qed.

Lemma iterate_step_shorter {E : Engine} (dt : float) (n : nat) (sp : Space) :
  quiet sp ->
  List.length (shapes (iterate n (space_step dt) sp)) <= List.length (shapes sp).
Proof.
  revert sp. induction n as [|n IH]; intros sp Hq; [cbn; lia|].
  cbn [iterate].
  destruct (space_step_quiet dt sp Hq) as [Q [_ [_ [_ [_ [Hs _]]]]]].
  specialize (IH _ Q).
  pose proof (filter_shorter
                (fun s => negb (removes_shape (substep_removals dt sp) (shape_id s)))
                (shapes sp)) as Hf.
  rewrite <- Hs in Hf. lia.
Qed.

(** The shapes at the end of the loop, against those at its start and the
    presses of the space bar in between. *)
Lemma shapes_bound_two {E : Engine} {R : Random} (i j : obj_id)
      (input : list (list event)) (w : World) :
  quiet (space w) -> l_spring w = Some j -> r_spring w = Some i ->
  List.length (shapes (space (final (Pinball2Paddles.main_loop input w))))
  <= List.length (shapes (space w)) + List.length (filter spawns (List.concat input)).
Proof.
  revert w. induction input as [|f rest IH]; intros w Hq Hl Hr.
  - cbn. lia.
  - destruct (event_loop_two f w i j Hq Hl Hr) as [w1 [bs [ss [H1 R1]]]].
    assert (Hframe : Pinball2Paddles.frame f w = render_and_step w1).
    { rewrite frame_two_paddles. unfold bind. rewrite H1. reflexivity. }
    assert (Hlen : List.length (shapes (space w1))
                   = List.length (shapes (space w)) + List.length (filter spawns f)).
    { rewrite (loop_shapes R1), length_app, (loop_count_shapes R1).
      reflexivity. }
    unfold Pinball2Paddles.main_loop in *. cbn [for_each List.concat].
    unfold bind at 1. rewrite Hframe. rewrite filter_app, length_app.
    destruct (pygame_alive w1) eqn:Ha.
    + rewrite (render_and_step_alive w1 Ha).
      assert (Hq' : quiet (space (stepped w1)))
        by (apply quiet_iterate_step, (loop_quiet R1)).
      assert (Hl' : l_spring (stepped w1) = Some j)
        by (cbn; rewrite (loop_l_spring R1); exact Hl).
      assert (Hr' : r_spring (stepped w1) = Some i)
        by (cbn; rewrite (loop_r_spring R1); exact Hr).
      specialize (IH (stepped w1) Hq' Hl' Hr').
      pose proof (iterate_step_shorter (to_float substep_dt) 5 (space w1)
                                       (loop_quiet R1)) as Hs.
      change (shapes (space (stepped w1)))
        with (shapes (iterate 5 (space_step (to_float substep_dt)) (space w1)))
        in IH.
      lia.
    + rewrite (render_and_step_dead w1 Ha). cbn [final]. lia.
Qed.

(** X8 (src/pinball_2_paddles.py, [add_ball], [remove_ball], [main]): at the
    end of any run the space holds at most as many shapes beyond those of
    setup as the space bar was pressed: balls come from [add_ball] only, one
    per press, and substeps only take shapes away. *)
Theorem balls_never_outnumber_presses {E : Engine} {R : Random} (seed : N)
        (input : list (list event)) :
  List.length (shapes (space (final (Pinball2Paddles.main input (start seed)))))
  <= List.length (shapes (space (final (Pinball2Paddles.main [] (start seed)))))
     + List.length (filter spawns (List.concat input)).
Proof.
  rewrite (main_two_runs input).
  assert (Hq : quiet (space (final (Pinball2Paddles.main [] (start seed)))))
    by (constructor; vm_compute; reflexivity).
  assert (Hl : l_spring (final (Pinball2Paddles.main [] (start seed))) = Some 16)
    by (vm_compute; reflexivity).
  assert (Hr : r_spring (final (Pinball2Paddles.main [] (start seed))) = Some 11)
    by (vm_compute; reflexivity).
  revert Hq Hl Hr. generalize (final (Pinball2Paddles.main [] (start seed))).
  intros w0 Hq Hl Hr. exact (shapes_bound_two 11 16 input w0 Hq Hl Hr).
Qed.

(** ** Geometry handed to the constructors *)

(** C6, as the claim states it, fails: a circle of radius zero, a segment
    whose endpoints coincide and a bow-tie polygon, all degenerate, are handed
    to [Circle], [Segment] and [Poly] on the static body and each call
    returns a shape; no error is raised.  The circle and the segment come
    back with the geometry they were given, and [space.add] puts the
    zero-radius circle in the space. *)
Lemma degenerate_geometry_is_accepted :
  (Degeneracy.degenerate (CircleGeom (Int 0) (zero, zero))
                         Degeneracy.zero_radius_circle /\
   exists s w',
     Circle (Int 0) (static_body empty_space) (start 0) = Ok s w' /\
     geometry s = CircleGeom (Int 0) (zero, zero) /\
     shapes (space (final (add [ShapeItem s] w'))) = [s]) /\
  (Degeneracy.degenerate (SegmentGeom (vec 3 4) (vec 3 4) (Int 5))
                         Degeneracy.zero_length_segment /\
   exists s w',
     Segment (static_body empty_space) (vec 3 4) (vec 3 4) (Int 5) (start 0)
     = Ok s w' /\
     geometry s = SegmentGeom (vec 3 4) (vec 3 4) (Int 5)) /\
  (Degeneracy.degenerate (PolyGeom [vec 0 0; vec 2 2; vec 2 0; vec 0 2])
                         Degeneracy.not_convex_polygon /\
   exists s w',
     Poly [vec 0 0; vec 2 2; vec 2 0; vec 0 2] (static_body empty_space) (start 0)
     = Ok s w').
Proof.
  split; [|split]; (split; [|eexists; eexists; repeat split; reflexivity]).
  - apply Degeneracy.zero_radius with (q := inject_Z 0); reflexivity.
  - apply Degeneracy.zero_length with (p := (inject_Z 3, inject_Z 4))
                                      (q := (inject_Z 3, inject_Z 4));
      reflexivity.
  - apply Degeneracy.not_convex
      with (ps := [(inject_Z 0, inject_Z 0); (inject_Z 2, inject_Z 2);
                   (inject_Z 2, inject_Z 0); (inject_Z 0, inject_Z 2)]);
      [reflexivity|].
    intros Hc. apply convexb_iff in Hc. discriminate.
Qed.

(** C6, amended.  The scripts validate no geometry and neither do the
    constructors they call: [Circle], [Segment] and [Poly] return a shape for
    every radius, every pair of endpoints and every list of vertices, in every
    state, and raise nothing; a circle and a segment keep the radius and the
    endpoints they were given.  What keeps degenerate geometry out of the
    game is that the scripts pass literals only: at the end of any run of
    either script no shape of the space is degenerate, be it a segment of
    [setup_boundaries], a paddle of [setup_paddles] or a ball of
    [add_ball]. *)
Theorem construction_validates_nothing {E : Engine} {R : Random} (seed : N)
        (input : list (list event)) :
  (forall radius body w,
     exists s w', Circle radius body w = Ok s w' /\
                  geometry s = CircleGeom radius (zero, zero)) /\
  (forall a b radius body w,
     exists s w', Segment body a b radius w = Ok s w' /\
                  geometry s = SegmentGeom a b radius) /\
  (forall vertices body w, exists s w', Poly vertices body w = Ok s w') /\
  Forall (fun s => forall d, ~ Degeneracy.degenerate (geometry s) d)
         (shapes (space (final (Pinball2Paddles.main input (start seed))))) /\
  Forall (fun s => forall d, ~ Degeneracy.degenerate (geometry s) d)
         (shapes (space (final (PinballTemplate.main input (start seed))))).
Proof.
  split; [intros; eexists; eexists; split; reflexivity|].
  split; [intros; eexists; eexists; split; reflexivity|].
  split; [intros; eexists; eexists; reflexivity|].
  pose proof (orderly_two seed input) as T2.
  pose proof (orderly_template seed input) as Tt.
  assert (S2 : forall s,
             In s (shapes (space (final (Pinball2Paddles.main [] (start seed))))) ->
             forall d, ~ Degeneracy.degenerate (geometry s) d)
    by (apply sound_geometries; vm_compute; reflexivity).
  assert (St : forall s,
             In s (shapes (space (final (PinballTemplate.main [] (start seed))))) ->
             forall d, ~ Degeneracy.degenerate (geometry s) d)
    by (apply sound_geometries; vm_compute; reflexivity).
  split; apply Forall_forall; intros s Hs.
  - destruct (tidy_inventory T2 s Hs) as [H|[Hg _]]; [exact (S2 s H)|].
    rewrite Hg. apply sound_geometry. reflexivity.
  - destruct (tidy_inventory Tt s Hs) as [H|[]]. exact (St s H).
Qed.

(** ** [unit_vector_between] in binary64 *)



